(** * traversify: dot-path views over JSON-like trees

    A shallow embedding of [traversify/traverser.py]: the path grammar
    ([split_escaped]), the [Traverser] view with its read resolver
    ([_find]) and write resolver ([_set]), and the structural [Filter]
    ([are_equal], [prune]).

    Python objects are modelled as follows.
    - Raw data is a [value]: [None], booleans, integers, strings, lists
      and dicts.  Dict keys are strings or integers ([key]); a dict is an
      association list in insertion order.
    - Exceptions are explicit: a computation returns a [result].
    - A [Traverser] created through [wrap_value] aliases a container that
      lives inside the tree of the root view.  The tree of the root view
      is the shared store, and such a Traverser is the location of its
      container in that store ([Trav p]).
    - Arguments of the methods are raw values: [unwrap_value] and
      [recursively_unwrap_value] return a raw tree as it is (the latter as
      an equal copy).  The two functions themselves are modelled on
      [object], a tree that may hold Traversers.
    - Strings are ASCII; [int] is modelled on them. *)

From Stdlib Require Import ZArith List String Ascii Bool Lia Sorted Permutation.
Import ListNotations.

Open Scope string_scope.
Open Scope Z_scope.

(** ** Exceptions *)

(** The Python exceptions the code can raise.  [Detached] is not a Python
    exception: it marks a location that no longer leads to a container of
    the store. *)
Inductive exn : Type :=
| ValueError
| TypeError
| AttributeError
| IndexError
| KeyError
| Detached.

Inductive result (A : Type) : Type :=
| Ok (a : A)
| Raise (e : exn).

Arguments Ok {A} a.
Arguments Raise {A} e.

Definition bind {A B : Type} (m : result A) (f : A -> result B) : result B :=
  match m with
  | Ok a => f a
  | Raise e => Raise e
  end.

Notation "x <- m ;; k" := (bind m (fun x => k))
  (at level 61, m at next level, right associativity).
Notation "' p <- m ;; k" := (bind m (fun x => let p := x in k))
  (at level 61, p pattern, m at next level, right associativity).

Definition raises {A : Type} (m : result A) : bool :=
  match m with
  | Ok _ => false
  | Raise _ => true
  end.

(** ** Strings: the fragments of [str] the code uses *)

Module PyStr.

Fixpoint startswith (p s : string) : bool :=
  match p, s with
  | EmptyString, _ => true
  | String _ _, EmptyString => false
  | String a p', String b s' => Ascii.eqb a b && startswith p' s'
  end.

(** [p in s] for strings. *)
Fixpoint contains (p s : string) : bool :=
  startswith p s ||
  match s with
  | EmptyString => false
  | String _ s' => contains p s'
  end.

(** [s.replace(old, new)] for a non-empty [old]: occurrences are found from
    the left and do not overlap.  [skip] counts the characters of a matched
    occurrence that are still to be dropped. *)
Fixpoint replace_from (old new : string) (skip : nat) (s : string) : string :=
  match s with
  | EmptyString => EmptyString
  | String c s' =>
      match skip with
      | S n => replace_from old new n s'
      | O =>
          if startswith old s
          then new ++ replace_from old new (Nat.pred (String.length old)) s'
          else String c (replace_from old new O s')
      end
  end.

Definition replace (old new s : string) : string := replace_from old new O s.

(** [s.split(sep)] for a one-character separator. *)
Fixpoint split (sep : ascii) (s : string) : list string :=
  match s with
  | EmptyString => [EmptyString]
  | String c s' =>
      if Ascii.eqb c sep then EmptyString :: split sep s'
      else match split sep s' with
           | seg :: segs => String c seg :: segs
           | [] => [String c EmptyString]
           end
  end.

(** ASCII white space, as [int] skips it around a literal. *)
Definition is_space (c : ascii) : bool :=
  let n := nat_of_ascii c in
  ((9 <=? n) && (n <=? 13))%nat || (n =? 32)%nat.

Definition is_digit (c : ascii) : bool :=
  let n := nat_of_ascii c in
  ((48 <=? n) && (n <=? 57))%nat.

Definition digit_val (c : ascii) : Z := Z.of_nat (nat_of_ascii c) - 48.

Fixpoint lstrip (s : string) : string :=
  match s with
  | EmptyString => EmptyString
  | String c s' => if is_space c then lstrip s' else s
  end.

Fixpoint rstrip (s : string) : string :=
  match s with
  | EmptyString => EmptyString
  | String c s' =>
      match rstrip s' with
      | EmptyString => if is_space c then EmptyString else String c EmptyString
      | r => String c r
      end
  end.

Definition strip (s : string) : string := lstrip (rstrip s).

(** The digits of a decimal literal; single underscores may separate
    digits.  [prev] tells whether the previous character was a digit. *)
Fixpoint digits (s : string) (acc : Z) (prev : bool) : option Z :=
  match s with
  | EmptyString => if prev then Some acc else None
  | String c s' =>
      if is_digit c then digits s' (10 * acc + digit_val c) true
      else if Ascii.eqb c "_" then (if prev then digits s' acc false else None)
      else None
  end.

(** [int(s)] on an ASCII string: [None] stands for [ValueError]. *)
Definition int (s : string) : option Z :=
  match strip s with
  | String "-" ds => option_map Z.opp (digits ds 0 false)
  | String "+" ds => digits ds 0 false
  | ds => digits ds 0 false
  end.

End PyStr.

(** ** Path grammar *)

Definition placeholder : string := "KQypbNUMED".

(** [split_escaped(path)] *)
Definition split_escaped (path : string) : list string :=
  map (PyStr.replace placeholder ".")
      (PyStr.split "." (PyStr.replace ".." placeholder path)).

(** The grammar in the words of the specification: a pair of dots is one
    literal dot inside the current segment, a single dot ends the
    segment. *)
Definition cons_head (c : ascii) (segs : list string) : list string :=
  match segs with
  | seg :: segs' => String c seg :: segs'
  | [] => [String c EmptyString]
  end.

Fixpoint split_spec (path : string) : list string :=
  match path with
  | EmptyString => [EmptyString]
  | String c rest =>
      if Ascii.eqb c "." then
        match rest with
        | String d rest' =>
            if Ascii.eqb d "." then cons_head "." (split_spec rest')
            else EmptyString :: split_spec rest
        | EmptyString => EmptyString :: split_spec rest
        end
      else cons_head c (split_spec rest)
  end.

(** The same grammar with the placeholder text as a third token, which
    also stands for one literal dot.  [skip] counts the characters of a
    token that are still to be dropped. *)
Fixpoint split_tokens (skip : nat) (path : string) : list string :=
  match path with
  | EmptyString => [EmptyString]
  | String c rest =>
      match skip with
      | S n => split_tokens n rest
      | O =>
          if PyStr.startswith ".." path
          then cons_head "." (split_tokens 1 rest)
          else if PyStr.startswith placeholder path
          then cons_head "." (split_tokens 9 rest)
          else if Ascii.eqb c "." then EmptyString :: split_tokens 0 rest
          else cons_head c (split_tokens 0 rest)
      end
  end.

(** ** Data model *)

(** Keys of dicts and indices of lists. *)
Inductive key : Type :=
| KStr (s : string)
| KInt (z : Z).

Definition key_eqb (a b : key) : bool :=
  match a, b with
  | KStr s, KStr t => String.eqb s t
  | KInt x, KInt y => Z.eqb x y
  | _, _ => false
  end.

(** Values that are not traversable. *)
Inductive scalar : Type :=
| SNone
| SBool (b : bool)
| SInt (z : Z)
| SStr (s : string).

#[local] Unset Elimination Schemes.
Inductive value : Type :=
| VScalar (s : scalar)
| VList (l : list value)
| VDict (d : list (key * value)).
#[local] Set Elimination Schemes.

Abbreviation VNone := (VScalar SNone).
Abbreviation VBool b := (VScalar (SBool b)).
Abbreviation VInt z := (VScalar (SInt z)).
Abbreviation VStr s := (VScalar (SStr s)).
Abbreviation dict := (list (key * value)).

(** [bool(x)] *)
Definition scalar_truthy (s : scalar) : bool :=
  match s with
  | SNone => false
  | SBool b => b
  | SInt z => negb (z =? 0)
  | SStr s => negb (String.eqb s "")
  end.

Definition truthy (v : value) : bool :=
  match v with
  | VScalar s => scalar_truthy s
  | VList l => match l with [] => false | _ => true end
  | VDict d => match d with [] => false | _ => true end
  end.

Definition is_list (v : value) : bool :=
  match v with VList _ => true | _ => false end.

Definition is_dict (v : value) : bool :=
  match v with VDict _ => true | _ => false end.

Module PyDict.

(** [d.get(k)]: [None] when the key is missing. *)
Fixpoint lookup (d : dict) (k : key) : option value :=
  match d with
  | [] => None
  | (k', v) :: d' => if key_eqb k' k then Some v else lookup d' k
  end.

Definition get (d : dict) (k : key) (default : value) : value :=
  match lookup d k with
  | Some v => v
  | None => default
  end.

(** [d[k] = v]: an existing key keeps its place, a new key goes last. *)
Fixpoint set (d : dict) (k : key) (v : value) : dict :=
  match d with
  | [] => [(k, v)]
  | (k', v') :: d' =>
      if key_eqb k' k then (k', v) :: d' else (k', v') :: set d' k v
  end.

(** [del d[k]]: [None] stands for [KeyError]. *)
Fixpoint del (d : dict) (k : key) : option dict :=
  match d with
  | [] => None
  | (k', v') :: d' =>
      if key_eqb k' k then Some d'
      else option_map (cons (k', v')) (del d' k)
  end.

Definition keys (d : dict) : list key := map fst d.

Definition mem (k : key) (ks : list key) : bool := existsb (key_eqb k) ks.

End PyDict.

Module PyList.

(** The position an index denotes in a list of length [n]; negative
    indices count from the end. *)
Definition position (n : nat) (i : Z) : option nat :=
  let j := if i <? 0 then i + Z.of_nat n else i in
  if (0 <=? j) && (j <? Z.of_nat n) then Some (Z.to_nat j) else None.

Fixpoint set_nth {A : Type} (l : list A) (n : nat) (x : A) : list A :=
  match l, n with
  | [], _ => []
  | _ :: l', O => x :: l'
  | y :: l', S n' => y :: set_nth l' n' x
  end.

(** [l[i]]: [None] stands for [IndexError]. *)
Definition __getitem__ {A : Type} (l : list A) (i : Z) : option A :=
  match position (List.length l) i with
  | Some n => nth_error l n
  | None => None
  end.

(** [l[i] = x]: [None] stands for [IndexError]. *)
Definition __setitem__ {A : Type} (l : list A) (i : Z) (x : A) : option (list A) :=
  match position (List.length l) i with
  | Some n => Some (set_nth l n x)
  | None => None
  end.

(** [del l[i]] *)
Fixpoint del_nth {A : Type} (l : list A) (n : nat) : list A :=
  match l, n with
  | [], _ => []
  | _ :: l', O => l'
  | y :: l', S n' => y :: del_nth l' n'
  end.

Definition __delitem__ {A : Type} (l : list A) (i : Z) : option (list A) :=
  match position (List.length l) i with
  | Some n => Some (del_nth l n)
  | None => None
  end.

(** A slice bound in a list of length [n]: negative bounds count from the
    end, and every bound is brought into [0..n]. *)
Definition clamp (n : nat) (i : Z) : nat :=
  Z.to_nat (if i <? 0 then Z.max (i + Z.of_nat n) 0 else Z.min i (Z.of_nat n)).

(** [l[start:stop]] *)
Definition slice {A : Type} (l : list A) (start stop : Z) : list A :=
  let lo := clamp (List.length l) start in
  let hi := clamp (List.length l) stop in
  firstn (hi - lo) (skipn lo l).

End PyList.

(** ** The store and the objects that point into it *)

(** A location: the dict keys that lead from the value of the root view
    to a container inside it. *)
Definition loc : Type := list key.

(** The store: the raw value of the root view. *)
Abbreviation store := value.

Fixpoint deref (v : value) (p : loc) : option value :=
  match p with
  | [] => Some v
  | k :: p' =>
      match v with
      | VDict d =>
          match PyDict.lookup d k with
          | Some c => deref c p'
          | None => None
          end
      | _ => None
      end
  end.

(** Change the container at a location in place. *)
Fixpoint update (v : value) (p : loc) (f : value -> result value)
  : result value :=
  match p with
  | [] => f v
  | k :: p' =>
      match v with
      | VDict d =>
          match PyDict.lookup d k with
          | Some c => c' <- update c p' f ;; Ok (VDict (PyDict.set d k c'))
          | None => Raise Detached
          end
      | _ => Raise Detached
      end
  end.

(** What a variable of [_find] and [_set] holds: a scalar, or a Traverser
    made by [wrap_value] ([deepcopy=False]) that aliases the container at
    a location.  [Plain SNone] is [None]; [Trav []] is the root view. *)
Inductive pyobj : Type :=
| Plain (s : scalar)
| Trav (p : loc).

(** [traversable(value)] *)
Definition traversable (v : value) : bool :=
  match v with
  | VList _ | VDict _ => true
  | VScalar _ => false
  end.

(** [wrap_value(value)] for a value found at location [p]. *)
Definition wrap_value (p : loc) (v : value) : pyobj :=
  match v with
  | VScalar s => Plain s
  | _ => Trav p
  end.

(** [ensure_list(value)] *)
Definition ensure_list (v : value) : list value :=
  match v with
  | VList l => l
  | _ => [v]
  end.

(** A tree as a caller can hand it over: it may hold Traversers, each
    over its internal value. *)
#[local] Unset Elimination Schemes.
Inductive object : Type :=
| OScalar (s : scalar)
| OList (l : list object)
| ODict (d : list (key * object))
| OTraverser (internal : object).
#[local] Set Elimination Schemes.

(** [unwrap_value(value)] *)
Definition unwrap_value (o : object) : object :=
  match o with
  | OTraverser v => v
  | _ => o
  end.

(** [recursively_unwrap_value(recursive_value)] *)
Fixpoint recursively_unwrap_value (o : object) : object :=
  match unwrap_value o with
  | OList l => OList (map recursively_unwrap_value l)
  | ODict d => ODict (map (fun '(k, v) => (k, recursively_unwrap_value v)) d)
  | u => u
  end.

(** ** Identifiers *)

Definition is_letter (c : ascii) : bool :=
  let n := nat_of_ascii c in
  ((65 <=? n) && (n <=? 90))%nat || ((97 <=? n) && (n <=? 122))%nat.

(** [\w] on ASCII *)
Definition is_word (c : ascii) : bool :=
  is_letter c || PyStr.is_digit c || Ascii.eqb c "_".

(** [\w*$]: word characters to the end, or to a newline that ends the
    string. *)
Fixpoint word_tail (s : string) : bool :=
  match s with
  | EmptyString => true
  | String c r =>
      if is_word c then word_tail r
      else Ascii.eqb c "010" && String.eqb r EmptyString
  end.

(** [is_identifier(key)]: [str(key)] against [^[a-zA-Z_]\w*$].  The text
    of an integer starts with a digit or a sign. *)
Definition is_identifier (k : key) : bool :=
  match k with
  | KStr (String c r) => (is_letter c || Ascii.eqb c "_") && word_tail r
  | _ => false
  end.

(** ** Equality of raw values *)

(** [a == b] on scalars; [True == 1] and [False == 0]. *)
Definition scalar_eq (a b : scalar) : bool :=
  match a, b with
  | SNone, SNone => true
  | SBool x, SBool y => Bool.eqb x y
  | SInt x, SInt y => x =? y
  | SBool x, SInt y => (if x then 1 else 0) =? y
  | SInt x, SBool y => x =? (if y then 1 else 0)
  | SStr x, SStr y => String.eqb x y
  | _, _ => false
  end.

(** [a == b] on raw values: lists position by position, dicts key by
    key whatever the order. *)
Fixpoint py_eq (a b : value) {struct a} : bool :=
  match a, b with
  | VScalar x, VScalar y => scalar_eq x y
  | VList la, VList lb =>
      (fix items (la lb : list value) : bool :=
         match la, lb with
         | [], [] => true
         | x :: la', y :: lb' => py_eq x y && items la' lb'
         | _, _ => false
         end) la lb
  | VDict da, VDict db =>
      (List.length da =? List.length db)%nat &&
      (fix items (da : dict) : bool :=
         match da with
         | [] => true
         | (k, v) :: da' =>
             match PyDict.lookup db k with
             | Some w => py_eq v w
             | None => false
             end && items da'
         end) da
  | _, _ => false
  end.

(** [a == b] on lists of keys. *)
Fixpoint keys_eqb (a b : list key) : bool :=
  match a, b with
  | [], [] => true
  | x :: a', y :: b' => key_eqb x y && keys_eqb a' b'
  | _, _ => false
  end.

(** [a < b] on keys: a string and an integer do not compare. *)
Definition key_lt (a b : key) : result bool :=
  match a, b with
  | KStr s, KStr t => Ok (String.ltb s t)
  | KInt x, KInt y => Ok (x <? y)
  | _, _ => Raise TypeError
  end.

Fixpoint insert_key (k : key) (ks : list key) : result (list key) :=
  match ks with
  | [] => Ok [k]
  | k' :: ks' =>
      b <- key_lt k k' ;;
      if (b : bool) then Ok (k :: ks)
      else ks'' <- insert_key k ks' ;; Ok (k' :: ks'')
  end.

(** [sorted(keys)]: ascending, [TypeError] when strings and integers
    are mixed. *)
Fixpoint sorted (ks : list key) : result (list key) :=
  match ks with
  | [] => Ok []
  | k :: ks' => s <- sorted ks' ;; insert_key k s
  end.

(** ** Filter *)

Module Filter.

Record t : Type := { blacklist : list key; whitelist : list key }.

(** An argument of the constructor: [None], one key or a list of keys. *)
Inductive keys_arg : Type :=
| NoKeys
| OneKey (k : key)
| KeyList (ks : list key).

(** [Filter.__init__(blacklist, whitelist)] *)
Definition __init__ (blacklist whitelist : keys_arg) : t :=
  let ensure a :=
    match a with
    | NoKeys => []
    | OneKey k => [k]
    | KeyList ks => ks
    end in
  {| blacklist := ensure blacklist; whitelist := ensure whitelist |}.

Definition nonempty {A : Type} (l : list A) : bool :=
  match l with [] => false | _ => true end.

(** The two list comprehensions over a list of keys, each under its
    [if self.blacklist:] and [if self.whitelist:]. *)
Definition select (self : t) (keys : list key) : list key :=
  let keys :=
    if nonempty (blacklist self)
    then filter (fun k => negb (PyDict.mem k (blacklist self))) keys
    else keys in
  if nonempty (whitelist self)
  then filter (fun k => PyDict.mem k (whitelist self)) keys
  else keys.

(** [Filter.are_equal(left, right)] on unwrapped values. *)
Fixpoint are_equal (self : t) (left right : value) {struct left}
  : result bool :=
  match left, right with
  | VList left_value, VList right_value =>
      if negb (List.length left_value =? List.length right_value)%nat
      then Ok false
      else
        (fix items (ls rs : list value) : result bool :=
           match ls, rs with
           | [], _ => Ok true
           | _ :: _, [] => Raise IndexError
           | item :: ls', r :: rs' =>
               b <- are_equal self item r ;;
               if (b : bool) then items ls' rs' else Ok false
           end) left_value right_value
  | VDict left_value, VDict right_value =>
      left_keys <- sorted (PyDict.keys left_value) ;;
      right_keys <- sorted (PyDict.keys right_value) ;;
      let left_keys := select self left_keys in
      let right_keys := select self right_keys in
      if negb (keys_eqb left_keys right_keys) then Ok false
      else
        (fix each (ks : list key) : result bool :=
           match ks with
           | [] => Ok true
           | key :: ks' =>
               b <- (fix left_at (d : dict) : result bool :=
                       match d with
                       | [] => Raise KeyError
                       | (k, l) :: d' =>
                           if key_eqb k key then
                             match PyDict.lookup right_value key with
                             | Some r => are_equal self l r
                             | None => Raise KeyError
                             end
                           else left_at d'
                       end) left_value ;;
               if (b : bool) then each ks' else Ok false
           end) left_keys
  | _, _ => Ok (py_eq left right)
  end.

(** [Filter.prune(value)]: the value after the mutation in place. *)
Fixpoint prune (self : t) (value : value) : store :=
  match value with
  | VList l => VList (map (prune self) l)
  | VDict d =>
      let keys := select self (PyDict.keys d) in
      VDict
        ((fix each (items : dict) : dict :=
            match items with
            | [] => []
            | (key, v) :: items' =>
                if PyDict.mem key keys
                then (key, prune self v) :: each items'
                else each items'
            end) d)
  | VScalar _ => value
  end.

End Filter.

(** ** Traverser *)

Module Traverser.

(** [Traverser.__init__] on a value already resolved from its [json()]
    accessor or JSON text: the stored value ([deepcopy] copies a tree to an
    equal tree), or [ValueError]. *)
Definition __init__ (v : value) : result value :=
  if traversable v then Ok v else Raise ValueError.

(** [self()] : the raw container behind the Traverser at [p]. *)
Definition raw (root : value) (p : loc) : result value :=
  match deref root p with
  | Some v => Ok v
  | None => Raise Detached
  end.

(** [Traverser.get(attr)]: a list has no [get]. *)
Definition get (root : value) (p : loc) (attr : key) : result pyobj :=
  v <- raw root p ;;
  match v with
  | VDict d => Ok (wrap_value (p ++ [attr])%list (PyDict.get d attr VNone))
  | _ => Raise AttributeError
  end.

(** [container[index] = v] on a raw container. *)
Definition raw_setitem (index : key) (v : value) (c : value) : result value :=
  match c, index with
  | VDict d, _ => Ok (VDict (PyDict.set d index v))
  | VList l, KInt i =>
      match PyList.__setitem__ l i v with
      | Some l' => Ok (VList l')
      | None => Raise IndexError
      end
  | VList _, KStr _ => Raise TypeError
  | VScalar _, _ => Raise TypeError
  end.

(** [Traverser.__setitem__]: the new store; [v] is already unwrapped. *)
Definition __setitem__ (root : value) (p : loc) (index : key) (v : value)
  : result value :=
  update root p (raw_setitem index v).

(** [del container[item]] on a raw container. *)
Definition raw_delitem (item : key) (c : value) : result value :=
  match c, item with
  | VDict d, _ =>
      match PyDict.del d item with
      | Some d' => Ok (VDict d')
      | None => Raise KeyError
      end
  | VList l, KInt i =>
      match PyList.__delitem__ l i with
      | Some l' => Ok (VList l')
      | None => Raise IndexError
      end
  | VList _, KStr _ => Raise TypeError
  | VScalar _, _ => Raise TypeError
  end.

(** [Traverser.__delitem__] *)
Definition __delitem__ (root : value) (p : loc) (item : key) : result value :=
  update root p (raw_delitem item).

(** [Traverser.__len__] *)
Definition __len__ (root : value) (p : loc) : result Z :=
  v <- raw root p ;;
  Ok (match v with
      | VList l => Z.of_nat (List.length l)
      | _ => 1
      end).

(** [Traverser.__bool__] *)
Definition __bool__ (root : value) (p : loc) : result bool :=
  n <- __len__ root p ;; Ok (negb (n =? 0)).

(** [Traverser.append(item)]: the new store.  A list grows in place.
    Otherwise only the Traverser's own reference is rebound to
    [[value, item]]: for the root view that is the store, for a Traverser
    made by [wrap_value] the store keeps the old container. *)
Definition append (root : value) (p : loc) (item : value) : result value :=
  v <- raw root p ;;
  match v with
  | VList l => update root p (fun _ => Ok (VList (l ++ [item])%list))
  | _ => match p with
         | [] => Ok (VList [v; item])
         | _ => Ok root
         end
  end.

(** [Traverser.extend(item)] *)
Definition extend (root : value) (p : loc) (item : value) : result value :=
  v <- raw root p ;;
  let items := ensure_list item in
  match v with
  | VList l => update root p (fun _ => Ok (VList (l ++ items)%list))
  | _ => match p with
         | [] => Ok (VList ([v] ++ items))
         | _ => Ok root
         end
  end.

(** The inner [get] of [_find].  [node] is always a Traverser. *)
Fixpoint find_get (root : value) (node : loc) (_keys : list string)
  : result pyobj :=
  match _keys with
  | [] => Raise IndexError
  | _key :: _keys =>
      v <- raw root node ;;
      let _key :=
        if is_list v then
          match PyStr.int _key with
          | Some z => KInt z
          | None => KStr _key
          end
        else KStr _key in
      match get root node _key with
      | Raise AttributeError | Raise TypeError | Raise IndexError =>
          Ok (Plain SNone)
      | Raise e => Raise e
      | Ok next_node =>
          match _keys with
          | [] => Ok next_node
          | _ =>
              match next_node with
              | Trav p => find_get root p _keys
              | Plain _ => Ok (Plain SNone)
              end
          end
      end
  end.

(** [Traverser._find(path)]; an [int] has no [replace]. *)
Definition _find (root : value) (self : loc) (path : key) : result pyobj :=
  match path with
  | KStr path => find_get root self (split_escaped path)
  | KInt _ => Raise AttributeError
  end.

(** *** Operations on whatever a variable holds *)

(** [obj()] *)
Definition obj_raw (root : value) (o : pyobj) : result value :=
  match o with
  | Trav p => raw root p
  | Plain _ => Raise TypeError
  end.

(** [obj(path)] with [path] not [None]: [__call__] goes to [_find]. *)
Definition obj_find (root : value) (o : pyobj) (path : key) : result pyobj :=
  match o with
  | Trav p => _find root p path
  | Plain _ => Raise TypeError
  end.

(** [obj.get(k)] *)
Definition obj_get (root : value) (o : pyobj) (k : key) : result pyobj :=
  match o with
  | Trav p => get root p k
  | Plain _ => Raise AttributeError
  end.

(** [obj[k] = v] *)
Definition obj_setitem (root : value) (o : pyobj) (k : key) (v : value)
  : result value :=
  match o with
  | Trav p => __setitem__ root p k v
  | Plain _ => Raise TypeError
  end.

(** [obj.append(item)] *)
Definition obj_append (root : value) (o : pyobj) (item : value)
  : result value :=
  match o with
  | Trav p => append root p item
  | Plain _ => Raise AttributeError
  end.

(** [len(obj)] *)
Definition obj_len (root : value) (o : pyobj) : result Z :=
  match o with
  | Trav p => __len__ root p
  | Plain (SStr s) => Ok (Z.of_nat (String.length s))
  | Plain _ => Raise TypeError
  end.

(** [bool(obj)] *)
Definition obj_bool (root : value) (o : pyobj) : result bool :=
  match o with
  | Trav p => __bool__ root p
  | Plain s => Ok (scalar_truthy s)
  end.

(** *** [_set] *)

(** [parent] and [parent_key] of [set_] are both [None] at the root and
    both set below it: [None] here, or the pair. *)
Definition parent_ref : Type := option (pyobj * key).

(** [parent[parent_key] = v] *)
Definition parent_setitem (root : value) (parent : parent_ref) (v : value)
  : result value :=
  match parent with
  | Some (o, k) => obj_setitem root o k v
  | None => Raise TypeError
  end.

(** [parent.get(parent_key)] *)
Definition parent_get (root : value) (parent : parent_ref) : result pyobj :=
  match parent with
  | Some (o, k) => obj_get root o k
  | None => Raise AttributeError
  end.

(** [parent(parent_key)] *)
Definition parent_find (root : value) (parent : parent_ref) : result pyobj :=
  match parent with
  | Some (o, k) => obj_find root o k
  | None => Raise TypeError
  end.

(** The [try] block of [set_]: the store, [node] and [_key] after it. *)
Definition set_try (root : value) (node : pyobj) (_key : string)
    (parent : parent_ref) : result (value * pyobj * key) :=
  match PyStr.int _key with
  | None => Raise ValueError
  | Some z =>
      v <- obj_raw root node ;;
      if negb (is_list v) then
        root <- parent_setitem root parent (VList [VDict []]) ;;
        node <- parent_get root parent ;;
        Ok (root, node, KInt 0)
      else
        n <- obj_len root node ;;
        if Z.abs z >=? n then
          child <- parent_get root parent ;;
          root <- obj_append root child (VDict []) ;;
          _key <- (if z >=? 0 then n <- obj_len root node ;; Ok (n - 1)
                   else Ok 0) ;;
          node <- parent_get root parent ;;
          Ok (root, node, KInt _key)
        else
          node <- parent_get root parent ;;
          Ok (root, node, KInt z)
  end.

(** The [except ValueError] block of [set_]. *)
Definition set_except (root : value) (node : pyobj) (_key : string)
    (parent : parent_ref) : result (value * pyobj * key) :=
  b <- obj_bool root node ;;
  replace <- (if negb b then Ok true
              else v <- obj_raw root node ;; Ok (negb (is_dict v))) ;;
  if (replace : bool) then
    root <- parent_setitem root parent (VDict []) ;;
    node <- parent_find root parent ;;
    Ok (root, node, KStr _key)
  else Ok (root, node, KStr _key).

(** The inner [set_] of [_set]: the store once it returns [self]. *)
Fixpoint set_ (value : value) (root : store) (node : pyobj)
    (_keys : list string) (parent : parent_ref) : result store :=
  match _keys with
  | [] => Raise IndexError
  | _key :: _keys =>
      ' (root, node, _key) <-
        match set_try root node _key parent with
        | Raise ValueError => set_except root node _key parent
        | r => r
        end ;;
      match _keys with
      | [] => obj_setitem root node _key value
      | _ =>
          child <- obj_get root node _key ;;
          set_ value root child _keys (Some (node, _key))
      end
  end.

(** [Traverser._set(path, value, force, deepcopy)] on the root view: the
    store of [self] afterwards and the store of the view it returns.  With
    [deepcopy] the work is done on, and the result is, a copy. *)
Definition _set (root : value) (path : key) (value : value)
    (deepcopy : bool) : result (store * store) :=
  match path with
  | KInt _ => Raise AttributeError
  | KStr path =>
      root' <- set_ value root (Trav []) (split_escaped path) None ;;
      Ok (if deepcopy then root else root', root')
  end.

(** What [__call__] returns. *)
Inductive returned : Type :=
| Found (o : pyobj)
| Self
| Internal (v : value).

(** [Traverser.__call__(path, value)] on the root view: the store
    afterwards and what is returned.  [None] is [None] for [path] and
    [VNone] for [value]. *)
Definition __call__ (root : value) (path : option key) (value : value)
  : result (store * returned) :=
  match path, value with
  | Some path, VNone => o <- _find root [] path ;; Ok (root, Found o)
  | Some path, _ => ' (root, _) <- _set root path value false ;; Ok (root, Self)
  | None, _ =>
      if truthy value then Raise ValueError else Ok (root, Internal root)
  end.

(** A view with its attached filter. *)
Record view : Type :=
  { internals_value : store; internals_filter : option Filter.t }.

(** [Traverser.__eq__(other)], [other] unwrapped. *)
Definition __eq__ (self : view) (other : value) : result bool :=
  match internals_filter self with
  | None => Ok (py_eq (internals_value self) other)
  | Some f => Filter.are_equal f (internals_value self) other
  end.

(** [Traverser.prune(filter)]: the view afterwards. *)
Definition prune (self : view) (filter' : option Filter.t) : view :=
  let filter' :=
    match filter' with
    | None => internals_filter self
    | Some _ => filter'
    end in
  match filter' with
  | Some f => {| internals_value := Filter.prune f (internals_value self);
                 internals_filter := internals_filter self |}
  | None => self
  end.

(** [Traverser.__add__(item)]: the list the returned view wraps. *)
Definition __add__ (root : value) (p : loc) (item : value) : result value :=
  v <- raw root p ;;
  Ok (VList (ensure_list v ++ ensure_list item)).

(** The index of an item access: a string, an integer or a slice. *)
Inductive index : Type :=
| IStr (s : string)
| IInt (i : Z)
| ISlice (start stop step : option Z).

(** What an item access hands out: a scalar, or a Traverser over a raw
    container. *)
Inductive item : Type :=
| Scalar (s : scalar)
| View (v : value).

Definition wrap_raw (v : value) : item :=
  match v with
  | VScalar s => Scalar s
  | _ => View v
  end.

(** [Traverser.__getitem__(index)] *)
Definition __getitem__ (root : value) (p : loc) (index : index) : result item :=
  match index with
  | IStr s =>
      o <- get root p (KStr s) ;;
      match o with
      | Plain s => Ok (Scalar s)
      | Trav q => v <- raw root q ;; Ok (View v)
      end
  | IInt i =>
      v <- raw root p ;;
      match PyList.__getitem__ (ensure_list v) i with
      | Some x => Ok (wrap_raw x)
      | None => Raise IndexError
      end
  | ISlice start stop _ =>
      v <- raw root p ;;
      let value := ensure_list v in
      let start := match start with Some i => i | None => 0 end in
      let stop :=
        match stop with Some i => i | None => Z.of_nat (List.length value) end in
      Ok (wrap_raw (VList (PyList.slice value start stop)))
  end.

(** What iteration hands out: a scalar, or a Traverser with its value and
    its filter. *)
Inductive iterated : Type :=
| IterScalar (s : scalar)
| IterView (t : view).

(** [Traverser.__iter__]: the items of the iterator.  The items of a list
    are wrapped without a filter; a view that does not wrap a list yields
    itself. *)
Definition __iter__ (self : view) : list iterated :=
  match internals_value self with
  | VList l =>
      map (fun value =>
             match value with
             | VScalar s => IterScalar s
             | _ => IterView {| internals_value := value;
                                internals_filter := None |}
             end) l
  | _ => [IterView self]
  end.

(** [Traverser.__contains__(item)]: the items of a list are wrapped
    without a filter, a view that does not wrap a list yields itself. *)
Definition __contains__ (self : view) (x : value) : result bool :=
  match internals_value self with
  | VList l =>
      (fix each (l : list value) : result bool :=
         match l with
         | [] => Ok false
         | e :: l' =>
             b <- match e with
                  | VScalar _ => Ok (py_eq e x)
                  | _ => __eq__ {| internals_value := e;
                                   internals_filter := None |} x
                  end ;;
             if (b : bool) then Ok true else each l'
         end) l
  | _ => b <- __eq__ self x ;; if (b : bool) then Ok true else Ok false
  end.

Definition internals_marker : string := "__traverser__internals__".

(** [Traverser.__dir__]; [class_dir] is [dir(Traverser)]. *)
Definition __dir__ (class_dir : list key) (root : value) (p : loc)
  : result (list key) :=
  v <- raw root p ;;
  Ok (class_dir ++
      match v with
      | VDict d => filter is_identifier (PyDict.keys d)
      | _ => []
      end)%list.

(** What [__getattr__] returns: the internals of the view, or what [get]
    returns. *)
Inductive attribute : Type :=
| Internals
| Attr (o : pyobj).

(** [Traverser.__getattr__(attr)] *)
Definition __getattr__ (root : value) (p : loc) (attr : string)
  : result attribute :=
  if PyStr.contains internals_marker attr then Ok Internals
  else o <- get root p (KStr attr) ;; Ok (Attr o).

End Traverser.

(** ** Vocabulary of the proofs *)

Open Scope list_scope.

Import Traverser.

(** The first segment of a split string. *)
Definition first_seg (s : string) : string := hd EmptyString (PyStr.split "." s).

(** No character of [q] is a dot or the first letter of the placeholder. *)
Fixpoint inner (q : string) : bool :=
  match q with
  | EmptyString => true
  | String c q' => negb (Ascii.eqb c ".") && negb (Ascii.eqb c "K") && inner q'
  end.

(** The store with the value at a location replaced. *)
Fixpoint plug (v : value) (p : loc) (x : value) : value :=
  match p with
  | [] => x
  | k :: p' =>
      match v with
      | VDict d =>
          match PyDict.lookup d k with
          | Some c => VDict (PyDict.set d k (plug c p' x))
          | None => v
          end
      | _ => v
      end
  end.

(** A Traverser that [get] hands out aliases a container of the store. *)
Definition valid (root : value) (o : pyobj) : Prop :=
  match o with
  | Trav q => exists c, deref root q = Some c
  | Plain _ => True
  end.

(** How [set_] is called: at the root with no parent, below it with the
    parent Traverser over a dict and [node] what [parent.get(parent_key)]
    returned. *)
Definition linked (root : value) (node : pyobj) (parent : parent_ref) : Prop :=
  match parent with
  | None => node = Trav []
  | Some (o, pk) =>
      exists pp d,
        o = Trav pp /\ deref root pp = Some (VDict d) /\
        node = wrap_value (pp ++ [pk]) (PyDict.get d pk VNone)
  end.

(** The step of [set_] ends with a node of the store or with a Python
    exception. *)
Definition step_ok (r : result (value * pyobj * key)) : Prop :=
  match r with
  | Ok (root, node, _) => valid root node
  | Raise e => e <> Detached
  end.

(** A segment that is a plain dict key: not an integer literal, and a
    path of one segment. *)
Definition plain (k : string) : Prop :=
  PyStr.int k = None /\ split_escaped k = [k].

(** [linked], with the location of [node] and a plain parent key. *)
Definition linked_at (root : value) (node : pyobj) (parent : parent_ref)
    (q : loc) : Prop :=
  match parent with
  | None => node = Trav [] /\ q = []
  | Some (o, pk) =>
      exists pp k d,
        o = Trav pp /\ pk = KStr k /\ plain k /\ q = pp ++ [pk] /\
        deref root pp = Some (VDict d) /\
        node = wrap_value q (PyDict.get d pk VNone)
  end.

(** The list a terminal out-of-range write leaves behind. *)
Definition appended (l : list value) (z : Z) (v : value) : list value :=
  if z >=? 0 then l ++ [v] else v :: tl (l ++ [VDict []]).

(** The key selection in the words of the specification: a key is
    retained when it is not blacklisted and, if a whitelist is configured,
    it is whitelisted. *)
Definition retained (f : Filter.t) (k : key) : bool :=
  negb (PyDict.mem k (Filter.blacklist f)) &&
  (negb (Filter.nonempty (Filter.whitelist f)) ||
   PyDict.mem k (Filter.whitelist f)).

(** The loop of [are_equal] over the selected keys of two dicts. *)
Definition left_at (f : Filter.t) (right_value : dict) (key : key)
  : dict -> result bool :=
  fix left_at (d : dict) : result bool :=
    match d with
    | [] => Raise KeyError
    | (k, l) :: d' =>
        if key_eqb k key then
          match PyDict.lookup right_value key with
          | Some r => Filter.are_equal f l r
          | None => Raise KeyError
          end
        else left_at d'
    end.

Definition each_key (f : Filter.t) (left_value right_value : dict)
  : list key -> result bool :=
  fix each (ks : list key) : result bool :=
    match ks with
    | [] => Ok true
    | key :: ks' =>
        b <- left_at f right_value key left_value ;;
        if (b : bool) then each ks' else Ok false
    end.

(** The values two dicts hold under a key are equal for the filter. *)
Definition equal_at (f : Filter.t) (left_value right_value : dict) (k : key)
  : Prop :=
  exists l r,
    PyDict.lookup left_value k = Some l /\
    PyDict.lookup right_value k = Some r /\
    Filter.are_equal f l r = Ok true.

(** The loop of [prune] over the items of a dict. *)
Definition prune_items (f : Filter.t) (keys : list key) : dict -> dict :=
  fix each (items : dict) : dict :=
    match items with
    | [] => []
    | (key, v) :: items' =>
        if PyDict.mem key keys
        then (key, Filter.prune f v) :: each items'
        else each items'
    end.

(** The loop of [are_equal] over the items of two lists. *)
Definition each_item (f : Filter.t) : list value -> list value -> result bool :=
  fix items (ls rs : list value) : result bool :=
    match ls, rs with
    | [], _ => Ok true
    | _ :: _, [] => Raise IndexError
    | item :: ls', r :: rs' =>
        b <- Filter.are_equal f item r ;;
        if (b : bool) then items ls' rs' else Ok false
    end.

Definition is_str (k : key) : bool :=
  match k with KStr _ => true | KInt _ => false end.

(** A value decoded from JSON: every key of every dict is a string. *)
Fixpoint str_keyed (v : value) : bool :=
  match v with
  | VScalar _ => true
  | VList l => forallb str_keyed l
  | VDict d => forallb (fun '(k, v) => is_str k && str_keyed v) d
  end.

(** Induction on values, through lists and dicts. *)
Section ValueInd.

Variable P : value -> Prop.
Hypothesis scalar_case : forall s, P (VScalar s).
Hypothesis list_case : forall l, Forall P l -> P (VList l).
Hypothesis dict_case : forall d, Forall (fun kv => P (snd kv)) d -> P (VDict d).

Fixpoint value_ind (v : value) : P v :=
  match v with
  | VScalar s => scalar_case s
  | VList l =>
      list_case l
        ((fix items (l : list value) : Forall P l :=
            match l with
            | [] => Forall_nil _
            | x :: l' => Forall_cons x (value_ind x) (items l')
            end) l)
  | VDict d =>
      dict_case d
        ((fix items (d : dict) : Forall (fun kv => P (snd kv)) d :=
            match d with
            | [] => Forall_nil _
            | (k, x) :: d' => Forall_cons (k, x) (value_ind x) (items d')
            end) d)
  end.

End ValueInd.

(** What a plain segment finds at the position it has to enter: a dict is
    kept, a list or a falsy scalar gives way to a new dict, a truthy scalar
    is called and raises. *)
Definition coerce_dict (c : value) : result dict :=
  match c with
  | VDict d => Ok d
  | VList _ => Ok []
  | VScalar s => if scalar_truthy s then Raise TypeError else Ok []
  end.

(** Assignment along plain segments, as a function of the dict alone. *)
Fixpoint assign (d : dict) (ks : list string) (v : value) : result dict :=
  match ks with
  | [] => Raise IndexError
  | k :: ks' =>
      match ks' with
      | [] => Ok (PyDict.set d (KStr k) v)
      | _ =>
          c <- coerce_dict (PyDict.get d (KStr k) VNone) ;;
          c' <- assign c ks' v ;;
          Ok (PyDict.set d (KStr k) (VDict c'))
      end
  end.

(** [set_] from the state its [except] block leaves at a dict. *)
Definition resume (v : value) (root : value) (q : loc) (k1 : string) (ks : list string)
  : result value :=
  match ks with
  | [] => obj_setitem root (Trav q) (KStr k1) v
  | _ =>
      child <- obj_get root (Trav q) (KStr k1) ;;
      set_ v root child ks (Some (Trav q, KStr k1))
  end.

(** The dicts a write along the segments builds in an empty dict. *)
Fixpoint nest (ks : list string) (v : value) : dict :=
  match ks with
  | [] => []
  | k :: ks' =>
      match ks' with
      | [] => [(KStr k, v)]
      | _ => [(KStr k, VDict (nest ks' v))]
      end
  end.

(** A truthy scalar sits at a position the segments have to enter. *)
Fixpoint blocked (d : dict) (ks : list string) : bool :=
  match ks with
  | [] => false
  | k :: ks' =>
      match ks' with
      | [] => false
      | _ =>
          match PyDict.get d (KStr k) VNone with
          | VScalar s => scalar_truthy s
          | VList _ => false
          | VDict c => blocked c ks'
          end
      end
  end.

(** Every key of every dict in the value satisfies [P]. *)
Fixpoint all_keys (P : key -> bool) (v : value) : bool :=
  match v with
  | VScalar _ => true
  | VList l => forallb (all_keys P) l
  | VDict d => forallb (fun '(k, x) => P k && all_keys P x) d
  end.

(** [a <= b] on keys: [b < a] is [False]. *)
Definition key_le (a b : key) : Prop := key_lt b a = Ok false.

(** The keys [ks] as a sorted sequence, in the words of the
    specification: the same keys, in ascending order.  A string and an
    integer do not compare, so keys of both kinds have no sorted
    sequence. *)
Definition sorted_sequence (ks s : list key) : Prop :=
  Permutation ks s /\ StronglySorted key_le s.

(** Equality for a filter in the words of the specification: two
    sequences are equal when they have the same length and each positional
    pair is equal; two mappings when their key sets, as sorted sequences
    filtered to the retained keys, are identical and the values under every
    retained key are equal; any other two values when they are directly
    equal. *)
#[local] Unset Elimination Schemes.
Inductive spec_equal (f : Filter.t) : value -> value -> Prop :=
| equal_sequences (ls rs : list value) :
    Forall2 (spec_equal f) ls rs ->
    spec_equal f (VList ls) (VList rs)
| equal_mappings (dl dr : dict) (lk rk : list key) :
    sorted_sequence (PyDict.keys dl) lk ->
    sorted_sequence (PyDict.keys dr) rk ->
    filter (retained f) lk = filter (retained f) rk ->
    Forall (fun k => exists l r,
                PyDict.lookup dl k = Some l /\
                PyDict.lookup dr k = Some r /\
                spec_equal f l r)
           (filter (retained f) lk) ->
    spec_equal f (VDict dl) (VDict dr)
| equal_direct (a b : value) :
    is_list a && is_list b = false ->
    is_dict a && is_dict b = false ->
    py_eq a b = true ->
    spec_equal f a b.
#[local] Set Elimination Schemes.

(** No segment after the first starts with a dot. *)
Definition later_segments_dotless (segs : list string) : Prop :=
  Forall (fun seg => PyStr.startswith "." seg = false) (tl segs).

(** A raw value as an object. *)
Fixpoint of_value (v : value) : object :=
  match v with
  | VScalar s => OScalar s
  | VList l => OList (map of_value l)
  | VDict d => ODict (map (fun '(k, x) => (k, of_value x)) d)
  end.

(** Every Traverser in the tree wraps a list or a dict, as [__init__]
    sees to. *)
Fixpoint constructed (o : object) : bool :=
  match o with
  | OScalar _ => true
  | OList l => forallb constructed l
  | ODict d => forallb (fun '(k, v) => constructed v) d
  | OTraverser v =>
      match v with
      | OList _ | ODict _ => constructed v
      | _ => false
      end
  end.

(** Induction on objects. *)
Section ObjectInd.

Variable P : object -> Prop.
Hypothesis scalar_case : forall s, P (OScalar s).
Hypothesis list_case : forall l, Forall P l -> P (OList l).
Hypothesis dict_case : forall d, Forall (fun kv => P (snd kv)) d -> P (ODict d).
Hypothesis traverser_case : forall v, P v -> P (OTraverser v).

Fixpoint object_ind (o : object) : P o :=
  match o with
  | OScalar s => scalar_case s
  | OList l =>
      list_case l
        ((fix items (l : list object) : Forall P l :=
            match l with
            | [] => Forall_nil _
            | x :: l' => Forall_cons x (object_ind x) (items l')
            end) l)
  | ODict d =>
      dict_case d
        ((fix items (d : list (key * object)) : Forall (fun kv => P (snd kv)) d :=
            match d with
            | [] => Forall_nil _
            | (k, x) :: d' => Forall_cons (k, x) (object_ind x) (items d')
            end) d)
  | OTraverser v => traverser_case v (object_ind v)
  end.

End ObjectInd.

(** Split a hypothesis [x <- m ;; k = Ok r] into its two steps. *)
Ltac bind_inv H :=
  match type of H with
  | bind ?m _ = Ok _ =>
      let E := fresh "E" in
      destruct m eqn:E; cbn [bind] in H; [|discriminate H]
  end.

(** * Path grammar *)

Section PathGrammar.

Open Scope string_scope.

Let esc := PyStr.replace ".." placeholder.
Let unesc := PyStr.replace placeholder ".".

Lemma startswith_cons a q b s :
  PyStr.startswith (String a q) (String b s) =
  Ascii.eqb a b && PyStr.startswith q s.
Proof. reflexivity. Qed.

Lemma split_nonempty sep s : PyStr.split sep s <> [].
Proof.
  destruct s as [|c s]; simpl; [discriminate|].
  destruct (Ascii.eqb c sep); [discriminate|].
  destruct (PyStr.split sep s); discriminate.
Qed.

Lemma split_first_seg s :
  exists segs, PyStr.split "." s = first_seg s :: segs.
Proof.
  unfold first_seg. destruct (PyStr.split "." s) eqn:E.
  - now apply split_nonempty in E.
  - simpl. now exists l.
Qed.

Lemma split_char c s :
  Ascii.eqb c "." = false ->
  PyStr.split "." (String c s) = cons_head c (PyStr.split "." s).
Proof.
  intros H. simpl. rewrite H. unfold cons_head.
  destruct (PyStr.split "." s) eqn:E; [now apply split_nonempty in E|reflexivity].
Qed.

Lemma split_placeholder s :
  PyStr.split "." (placeholder ++ s) =
  match PyStr.split "." s with
  | seg :: segs => (placeholder ++ seg) :: segs
  | [] => []
  end.
Proof.
  simpl. destruct (PyStr.split "." s) eqn:E; [now apply split_nonempty in E|reflexivity].
Qed.

Lemma esc_pair s : esc (String "." (String "." s)) = placeholder ++ esc s.
Proof. reflexivity. Qed.

Lemma esc_dot s :
  PyStr.startswith "." s = false -> esc (String "." s) = String "." (esc s).
Proof.
  intros H. unfold esc, PyStr.replace.
  destruct s as [|d s]; [reflexivity|].
  cbn [PyStr.replace_from PyStr.startswith] in *.
  rewrite H. reflexivity.
Qed.

Lemma esc_char c s :
  Ascii.eqb c "." = false -> esc (String c s) = String c (esc s).
Proof.
  intros H. unfold esc, PyStr.replace.
  cbn [PyStr.replace_from PyStr.startswith].
  rewrite Ascii.eqb_sym, H. reflexivity.
Qed.

Lemma split_spec_pair s :
  split_spec (String "." (String "." s)) = cons_head "." (split_spec s).
Proof. reflexivity. Qed.

Lemma split_spec_dot s :
  PyStr.startswith "." s = false ->
  split_spec (String "." s) = EmptyString :: split_spec s.
Proof.
  intros H. destruct s as [|d s]; [reflexivity|].
  cbn [PyStr.startswith] in H. rewrite andb_true_r, Ascii.eqb_sym in H.
  change (split_spec (String "." (String d s)))
    with (if Ascii.eqb d "." then cons_head "." (split_spec s)
          else EmptyString :: split_spec (String d s)).
  now rewrite H.
Qed.

Lemma split_spec_char c s :
  Ascii.eqb c "." = false ->
  split_spec (String c s) = cons_head c (split_spec s).
Proof.
  intros H.
  change (split_spec (String c s))
    with (if Ascii.eqb c "." then
            match s with
            | String d rest' =>
                if Ascii.eqb d "." then cons_head "." (split_spec rest')
                else EmptyString :: split_spec s
            | EmptyString => EmptyString :: split_spec s
            end
          else cons_head c (split_spec s)).
  now rewrite H.
Qed.

Lemma unesc_placeholder s : unesc (placeholder ++ s) = String "." (unesc s).
Proof. reflexivity. Qed.

Lemma unesc_char c s :
  PyStr.startswith placeholder (String c s) = false ->
  unesc (String c s) = String c (unesc s).
Proof.
  intros H. unfold unesc, PyStr.replace.
  cbn [PyStr.replace_from]. rewrite H. reflexivity.
Qed.

Lemma startswith_first_seg q : forall s,
  inner q = true ->
  PyStr.startswith q (first_seg (esc s)) = true ->
  PyStr.startswith q s = true.
Proof.
  induction q as [|a q IH]; intros s Hq H; [now destruct s|].
  simpl in Hq. apply andb_prop in Hq as [Ha Hq]. apply andb_prop in Ha as [Hdot HK].
  apply negb_true_iff in Hdot, HK.
  destruct s as [|c s]; [discriminate H|].
  destruct (Ascii.eqb c ".") eqn:Ec.
  - apply Ascii.eqb_eq in Ec. subst c. exfalso.
    destruct (PyStr.startswith "." s) eqn:Es.
    + destruct s as [|d s]; [discriminate|]. cbn [PyStr.startswith] in Es.
      rewrite andb_true_r in Es. apply Ascii.eqb_eq in Es. subst d.
      rewrite esc_pair in H. unfold first_seg in H.
      rewrite split_placeholder in H.
      destruct (split_first_seg (esc s)) as [segs E]. rewrite E in H.
      unfold placeholder in H. cbn [String.append hd PyStr.startswith] in H.
      rewrite HK in H. discriminate.
    + rewrite esc_dot in H by assumption. discriminate H.
  - rewrite esc_char in H by assumption. unfold first_seg in H.
    rewrite split_char in H by assumption.
    destruct (split_first_seg (esc s)) as [segs E]. rewrite E in H.
    cbn [cons_head hd PyStr.startswith] in H |- *.
    apply andb_prop in H as [H1 H2]. rewrite H1. cbn [andb].
    apply IH; [assumption|]. unfold first_seg. rewrite E. exact H2.
Qed.

Lemma split_escaped_split_spec_len n : forall path,
  (String.length path <= n)%nat ->
  PyStr.contains placeholder path = false ->
  split_escaped path = split_spec path.
Proof.
  unfold split_escaped. fold esc. fold unesc.
  induction n as [|n IH]; intros path Hn Hc.
  - destruct path; [reflexivity|simpl in Hn; lia].
  - destruct path as [|c s]; [reflexivity|].
    simpl in Hn.
    cbn [PyStr.contains] in Hc. apply orb_false_iff in Hc as [Hp Hc].
    destruct (Ascii.eqb c ".") eqn:Ec.
    + apply Ascii.eqb_eq in Ec. subst c.
      destruct (PyStr.startswith "." s) eqn:Es.
      * destruct s as [|d s']; [discriminate|].
        cbn [PyStr.startswith] in Es. rewrite andb_true_r in Es.
        apply Ascii.eqb_eq in Es. subst d.
        rewrite esc_pair, split_placeholder, split_spec_pair.
        cbn [PyStr.contains] in Hc. apply orb_false_iff in Hc as [_ Hc].
        rewrite <- (IH s') by (cbn [String.length] in Hn; try assumption; lia).
        destruct (split_first_seg (esc s')) as [segs E]. rewrite E.
        cbn [map cons_head]. now rewrite unesc_placeholder.
      * rewrite esc_dot, split_spec_dot by assumption.
        rewrite <- (IH s) by (try assumption; lia).
        reflexivity.
    + rewrite esc_char, split_char, split_spec_char by assumption.
      rewrite <- (IH s) by (try assumption; lia).
      destruct (split_first_seg (esc s)) as [segs E]. rewrite E.
      cbn [map cons_head]. rewrite unesc_char; [reflexivity|].
      destruct (PyStr.startswith placeholder (String c (first_seg (esc s)))) eqn:F;
        [|reflexivity].
      exfalso. unfold placeholder in F, Hp.
      rewrite startswith_cons in F, Hp.
      apply andb_prop in F as [F1 F2]. rewrite F1 in Hp. cbn [andb] in Hp.
      apply startswith_first_seg in F2; [|reflexivity].
      rewrite F2 in Hp. discriminate.
Qed.

Lemma startswith_append p : forall s,
  PyStr.startswith p s = true -> exists t, s = p ++ t.
Proof.
  induction p as [|a p IH]; intros s H; [now exists s|].
  destruct s as [|b s]; [discriminate|].
  rewrite startswith_cons in H. apply andb_prop in H as [H1 H2].
  apply Ascii.eqb_eq in H1. subst b.
  destruct (IH s H2) as (t & ->). now exists t.
Qed.

Lemma esc_placeholder s : esc (placeholder ++ s) = placeholder ++ esc s.
Proof. reflexivity. Qed.

Lemma split_tokens_pair s :
  split_tokens 0 (String "." (String "." s)) =
  cons_head "." (split_tokens 0 s).
Proof. reflexivity. Qed.

Lemma split_tokens_placeholder s :
  split_tokens 0 (placeholder ++ s) = cons_head "." (split_tokens 0 s).
Proof. reflexivity. Qed.

Lemma split_tokens_dot s :
  PyStr.startswith "." s = false ->
  split_tokens 0 (String "." s) = EmptyString :: split_tokens 0 s.
Proof.
  intros H.
  change (split_tokens 0 (String "." s))
    with (if Ascii.eqb "." "." && PyStr.startswith "." s
          then cons_head "." (split_tokens 1 s)
          else EmptyString :: split_tokens 0 s).
  now rewrite H.
Qed.

Lemma split_tokens_char c s :
  Ascii.eqb c "." = false ->
  PyStr.startswith placeholder (String c s) = false ->
  split_tokens 0 (String c s) = cons_head c (split_tokens 0 s).
Proof.
  intros Hc Hp.
  change (split_tokens 0 (String c s))
    with (if Ascii.eqb "." c && PyStr.startswith "." s
          then cons_head "." (split_tokens 1 s)
          else if PyStr.startswith placeholder (String c s)
          then cons_head "." (split_tokens 9 s)
          else if Ascii.eqb c "." then EmptyString :: split_tokens 0 s
          else cons_head c (split_tokens 0 s)).
  now rewrite Ascii.eqb_sym, Hc, Hp.
Qed.

Lemma split_escaped_split_tokens_len n : forall path,
  (String.length path <= n)%nat ->
  split_escaped path = split_tokens 0 path.
Proof.
  unfold split_escaped. fold esc. fold unesc.
  induction n as [|n IH]; intros path Hn.
  - destruct path; [reflexivity|simpl in Hn; lia].
  - destruct path as [|c s]; [reflexivity|].
    simpl in Hn.
    destruct (Ascii.eqb c ".") eqn:Ec.
    + apply Ascii.eqb_eq in Ec. subst c.
      destruct (PyStr.startswith "." s) eqn:Es.
      * destruct s as [|d s']; [discriminate|].
        cbn [PyStr.startswith] in Es. rewrite andb_true_r in Es.
        apply Ascii.eqb_eq in Es. subst d.
        rewrite esc_pair, split_placeholder, split_tokens_pair.
        rewrite <- (IH s') by (cbn [String.length] in Hn; lia).
        destruct (split_first_seg (esc s')) as [segs E]. rewrite E.
        cbn [map cons_head]. now rewrite unesc_placeholder.
      * rewrite esc_dot, split_tokens_dot by assumption.
        rewrite <- (IH s) by lia.
        reflexivity.
    + destruct (PyStr.startswith placeholder (String c s)) eqn:Hp.
      * apply startswith_append in Hp as (t & Ht). rewrite Ht.
        rewrite esc_placeholder, split_placeholder, split_tokens_placeholder.
        assert (Hlen : (String.length t <= n)%nat).
        { apply (f_equal String.length) in Ht.
          unfold placeholder in Ht. cbn [String.length String.append] in Ht.
          lia. }
        rewrite <- (IH t Hlen).
        destruct (split_first_seg (esc t)) as [segs E]. rewrite E.
        cbn [map cons_head]. now rewrite unesc_placeholder.
      * rewrite esc_char, split_char, split_tokens_char by assumption.
        rewrite <- (IH s) by lia.
        destruct (split_first_seg (esc s)) as [segs E]. rewrite E.
        cbn [map cons_head]. rewrite unesc_char; [reflexivity|].
        destruct (PyStr.startswith placeholder (String c (first_seg (esc s))))
          eqn:F; [|reflexivity].
        exfalso. unfold placeholder in F, Hp.
        rewrite startswith_cons in F, Hp.
        apply andb_prop in F as [F1 F2]. rewrite F1 in Hp. cbn [andb] in Hp.
        apply startswith_first_seg in F2; [|reflexivity].
        rewrite F2 in Hp. discriminate.
Qed.

(** On every path [split_escaped] reads three tokens: a pair of dots and
    the placeholder text as a literal dot, a single dot as the end of the
    segment. *)
Lemma split_escaped_split_tokens path :
  split_escaped path = split_tokens 0 path.
Proof. apply (split_escaped_split_tokens_len (String.length path)). lia. Qed.

(** A path without the placeholder text is split as the grammar says. *)
Lemma split_escaped_split_spec path :
  PyStr.contains placeholder path = false ->
  split_escaped path = split_spec path.
Proof. apply (split_escaped_split_spec_len (String.length path)). lia. Qed.

(** The placeholder text itself reads as a dot: a key that contains it
    cannot be addressed. *)
Lemma split_escaped_placeholder :
  split_escaped "KQypbNUMED" = ["."] /\ split_spec "KQypbNUMED" = ["KQypbNUMED"].
Proof. split; reflexivity. Qed.

End PathGrammar.

(** C6: a path is split at its dots, and a pair of dots is always one
    dot inside a segment, never two separators: on every path
    [split_escaped] reads the tokens of [split_tokens], and on every path
    free of the placeholder text that is the grammar [split_spec].
    ["a..b.c"] is [["a.b", "c"]], so under [{"a.b": {"c": 1}}] the path
    ["a..b.c"] reads [1] and ["a.b.c"] reads [None]. *)
Theorem path_escaping (path : string) :
  split_escaped path = split_tokens 0 path /\
  (PyStr.contains placeholder path = false ->
   split_escaped path = split_spec path) /\
  split_escaped "a..b.c" = ["a.b"; "c"] /\
  _find (VDict [(KStr "a.b", VDict [(KStr "c", VInt 1)])]) [] (KStr "a..b.c")
    = Ok (Plain (SInt 1)) /\
  _find (VDict [(KStr "a.b", VDict [(KStr "c", VInt 1)])]) [] (KStr "a.b.c")
    = Ok (Plain SNone).
Proof.
  split; [apply split_escaped_split_tokens|].
  split; [apply split_escaped_split_spec|].
  repeat split.
Qed.

Lemma path_escaping_witness :
  split_escaped "a...b.c..d" = ["a."; "b"; "c.d"] /\
  split_spec "a...b.c..d" = ["a."; "b"; "c.d"].
Proof.
  split; [|reflexivity].
  rewrite (proj1 (proj2 (path_escaping "a...b.c..d")) eq_refl). reflexivity.
Defined.

(** * The store *)

Lemma key_eqb_eq a b : key_eqb a b = true <-> a = b.
Proof.
  destruct a, b; simpl; split; intros H; try discriminate; try congruence.
  - apply String.eqb_eq in H. congruence.
  - apply String.eqb_eq. congruence.
  - apply Z.eqb_eq in H. congruence.
  - apply Z.eqb_eq. congruence.
Qed.

Lemma key_eqb_refl a : key_eqb a a = true.
Proof. now apply key_eqb_eq. Qed.

Lemma lookup_set_same d k v : PyDict.lookup (PyDict.set d k v) k = Some v.
Proof.
  induction d as [|[k' v'] d IH]; simpl.
  - now rewrite key_eqb_refl.
  - destruct (key_eqb k' k) eqn:E; simpl; now rewrite E.
Qed.

Lemma set_set_same d k v w :
  PyDict.set (PyDict.set d k v) k w = PyDict.set d k w.
Proof.
  induction d as [|[k' v'] d IH]; simpl.
  - now rewrite key_eqb_refl.
  - destruct (key_eqb k' k) eqn:E; simpl; rewrite E; [reflexivity|now rewrite IH].
Qed.

Lemma deref_app root p q :
  deref root (p ++ q) =
  match deref root p with
  | Some v => deref v q
  | None => None
  end.
Proof.
  revert root. induction p as [|k p IH]; intros root; simpl; [reflexivity|].
  destruct root as [s|l|d]; try reflexivity.
  destruct (PyDict.lookup d k); [apply IH|reflexivity].
Qed.

Lemma update_plug p : forall root v f,
  deref root p = Some v ->
  update root p f = (v' <- f v ;; Ok (plug root p v')).
Proof.
  induction p as [|k p IH]; intros root v f H; simpl in *.
  - injection H as ->. now destruct (f v).
  - destruct root as [s|l|d]; try discriminate.
    destruct (PyDict.lookup d k) as [c|]; [|discriminate].
    rewrite (IH _ _ _ H). now destruct (f v).
Qed.

Lemma deref_plug p : forall root v x,
  deref root p = Some v -> deref (plug root p x) p = Some x.
Proof.
  induction p as [|k p IH]; intros root v x H; simpl in *; [reflexivity|].
  destruct root as [s|l|d]; try discriminate.
  destruct (PyDict.lookup d k) as [c|] eqn:E; [|discriminate].
  rewrite lookup_set_same. eauto.
Qed.

Lemma plug_plug p : forall root v x y,
  deref root p = Some v -> plug (plug root p x) p y = plug root p y.
Proof.
  induction p as [|k p IH]; intros root v x y H; simpl in *; [reflexivity|].
  destruct root as [s|l|d]; try discriminate.
  destruct (PyDict.lookup d k) as [c|] eqn:E; [|discriminate].
  rewrite lookup_set_same, set_set_same. now rewrite (IH _ _ _ _ H).
Qed.

Lemma deref_plug_prefix p k : forall root d x,
  deref root p = Some (VDict d) ->
  PyDict.lookup d k <> None ->
  deref (plug root (p ++ [k]) x) p = Some (VDict (PyDict.set d k x)).
Proof.
  induction p as [|k' p IH]; intros root d x H Hk; simpl in *.
  - injection H as ->. destruct (PyDict.lookup d k); [reflexivity|congruence].
  - destruct root as [s|l|d0]; try discriminate.
    destruct (PyDict.lookup d0 k') as [c|] eqn:E; [|discriminate].
    rewrite lookup_set_same. eauto.
Qed.

Lemma traversable_plug p root x :
  traversable root = true ->
  (p = [] -> traversable x = true) ->
  traversable (plug root p x) = true.
Proof.
  intros Hr Hx. destruct p as [|k p]; simpl; [now apply Hx|].
  destruct root as [s|l|d]; try assumption.
  now destruct (PyDict.lookup d k).
Qed.

(** * Read resolution *)

Lemma split_escaped_nonempty path : split_escaped path <> [].
Proof.
  unfold split_escaped. intros H. apply map_eq_nil in H.
  now apply split_nonempty in H.
Qed.

Lemma raw_deref root p v : deref root p = Some v -> raw root p = Ok v.
Proof. unfold raw. now intros ->. Qed.

(** One step of [find_get] at a node that is not a dict. *)
Lemma find_get_not_dict root node v k ks :
  deref root node = Some v -> is_dict v = false ->
  find_get root node (k :: ks) = Ok (Plain SNone).
Proof.
  intros H Hd. cbn [find_get]. unfold get.
  rewrite (raw_deref _ _ _ H). cbn [bind].
  destruct v as [s|l|d]; [reflexivity|reflexivity|discriminate].
Qed.

(** One step of [find_get] at a dict. *)
Lemma find_get_dict root node d k ks :
  deref root node = Some (VDict d) ->
  find_get root node (k :: ks) =
  match ks with
  | [] => Ok (wrap_value (node ++ [KStr k]) (PyDict.get d (KStr k) VNone))
  | _ =>
      match wrap_value (node ++ [KStr k]) (PyDict.get d (KStr k) VNone) with
      | Trav p => find_get root p ks
      | Plain _ => Ok (Plain SNone)
      end
  end.
Proof.
  intros H. cbn [find_get]. unfold get.
  rewrite (raw_deref _ _ _ H). cbn [bind is_list]. reflexivity.
Qed.

Lemma deref_child root node d k c :
  deref root node = Some (VDict d) ->
  PyDict.lookup d k = Some c ->
  deref root (node ++ [k]) = Some c.
Proof.
  intros H Hk. rewrite deref_app, H. simpl. now rewrite Hk.
Qed.

Lemma wrap_value_valid root node d k :
  deref root node = Some (VDict d) ->
  valid root (wrap_value (node ++ [k]) (PyDict.get d k VNone)).
Proof.
  intros H. unfold PyDict.get.
  destruct (PyDict.lookup d k) as [c|] eqn:E; [|exact I].
  destruct c as [s|l|d']; simpl; try exact I;
    eexists; eapply deref_child; eassumption.
Qed.

Lemma find_get_total ks : forall root node v,
  ks <> [] -> deref root node = Some v ->
  exists o, find_get root node ks = Ok o /\ valid root o.
Proof.
  induction ks as [|k ks IH]; intros root node v Hne H; [congruence|].
  destruct (is_dict v) eqn:Hd.
  - destruct v as [s|l|d]; try discriminate.
    rewrite (find_get_dict _ _ _ _ _ H).
    pose proof (wrap_value_valid root node d (KStr k) H) as Hv.
    destruct ks as [|k' ks]; [eauto|].
    destruct (wrap_value (node ++ [KStr k]) (PyDict.get d (KStr k) VNone))
      as [s|q]; [exists (Plain SNone); split; [reflexivity|exact I]|].
    destruct Hv as (c & Hc). eapply IH; [discriminate|eassumption].
  - rewrite (find_get_not_dict _ _ _ _ _ H Hd).
    exists (Plain SNone). split; [reflexivity|exact I].
Qed.

(** C3: reading a path never raises.  Whatever the view and the path,
    [_find] returns, and so does the call with a path alone, which leaves
    the store as it was; a node that is not a dict (a list, whatever the
    index), a missing key and a scalar met before the last segment each
    give [None] for the whole __call__, and a container met before the last
    segment hands the rest of the path on. *)
Theorem get_never_raises (root : value) (path : string) (node : loc)
    (v : value) (k : string) (ks : list string) :
  deref root node = Some v ->
  (exists o, _find root [] (KStr path) = Ok o) /\
  (exists o, __call__ root (Some (KStr path)) VNone = Ok (root, Found o)) /\
  (is_dict v = false -> find_get root node (k :: ks) = Ok (Plain SNone)) /\
  (forall d, v = VDict d ->
     (PyDict.lookup d (KStr k) = None ->
      find_get root node (k :: ks) = Ok (Plain SNone)) /\
     (forall s, PyDict.lookup d (KStr k) = Some (VScalar s) -> ks <> [] ->
      find_get root node (k :: ks) = Ok (Plain SNone)) /\
     (forall c, PyDict.lookup d (KStr k) = Some c ->
      traversable c = true -> ks <> [] ->
      find_get root node (k :: ks) = find_get root (node ++ [KStr k]) ks)).
Proof.
  intros H.
  destruct (find_get_total (split_escaped path) root [] root
              (split_escaped_nonempty path) eq_refl) as (o & Ho & _).
  split; [|split; [|split]].
  - now exists o.
  - exists o. cbn [__call__ _find]. now rewrite Ho.
  - now apply find_get_not_dict.
  - intros d ->. rewrite (find_get_dict _ _ _ _ _ H). unfold PyDict.get.
    repeat split.
    + intros ->. now destruct ks.
    + intros s -> Hne. now destruct ks.
    + intros c -> Hc Hne. destruct ks; [congruence|].
      now destruct c.
Qed.

Lemma get_never_raises_witness :
  _find (VDict [(KStr "a", VInt 5)]) [] (KStr "a.b") = Ok (Plain SNone).
Proof.
  destruct (get_never_raises (VDict [(KStr "a", VInt 5)]) "a.b" []
              (VDict [(KStr "a", VInt 5)]) "a" ["b"] eq_refl)
    as (_ & _ & _ & H).
  destruct (H _ eq_refl) as (_ & Hs & _).
  apply (Hs (SInt 5) eq_refl). discriminate.
Defined.

(** C4: a list node is never indexed.  [Traverser.get] asks the raw
    list for [get], which a list does not have; [_find] takes the
    [AttributeError] for a failed step.  Every read from a list gives
    [None], where the list itself holds the element. *)
Theorem get_on_sequence_is_none :
  (forall (l : list value) (path : string),
     _find (VList l) [] (KStr path) = Ok (Plain SNone)) /\
  _find (VList [VInt 10; VInt 20]) [] (KStr "0") = Ok (Plain SNone) /\
  _find (VList [VInt 10; VInt 20]) [] (KStr "-1") = Ok (Plain SNone) /\
  _find (VDict [(KStr "a", VList [VInt 1])]) [] (KStr "a.0") = Ok (Plain SNone) /\
  PyList.__getitem__ [VInt 10; VInt 20] 0 = Some (VInt 10).
Proof.
  repeat split.
  intros l path. unfold _find.
  destruct (split_escaped path) as [|k ks] eqn:E;
    [now apply split_escaped_nonempty in E|].
  now apply (find_get_not_dict (VList l) [] (VList l)).
Qed.

(** * Write resolution *)

Lemma get_child root p d k c :
  deref root p = Some (VDict d) ->
  PyDict.lookup d k = Some c ->
  get root p k = Ok (wrap_value (p ++ [k]) c).
Proof.
  intros H Hk. unfold get. rewrite (raw_deref _ _ _ H). cbn [bind].
  unfold PyDict.get. now rewrite Hk.
Qed.

Lemma position_last n : PyList.position (S n) (Z.of_nat n) = Some n.
Proof.
  unfold PyList.position.
  destruct (Z.of_nat n <? 0) eqn:E; [apply Z.ltb_lt in E; lia|].
  replace (0 <=? Z.of_nat n) with true by (symmetry; apply Z.leb_le; lia).
  replace (Z.of_nat n <? Z.of_nat (S n)) with true
    by (symmetry; apply Z.ltb_lt; lia).
  simpl. now rewrite Nat2Z.id.
Qed.

Lemma set_nth_last {A} (l : list A) x y :
  PyList.set_nth (l ++ [x]) (List.length l) y = l ++ [y].
Proof. induction l as [|a l IH]; simpl; [reflexivity|now rewrite IH]. Qed.

Lemma setitem_last {A} (l : list A) x y :
  PyList.__setitem__ (l ++ [x]) (Z.of_nat (List.length l)) y = Some (l ++ [y]).
Proof.
  unfold PyList.__setitem__. rewrite length_app. simpl.
  rewrite Nat.add_1_r, position_last. now rewrite set_nth_last.
Qed.

Lemma setitem_first {A} (l : list A) x y :
  PyList.__setitem__ (l ++ [x]) 0 y = Some (y :: tl (l ++ [x])).
Proof.
  unfold PyList.__setitem__. rewrite length_app. simpl.
  rewrite Nat.add_1_r. unfold PyList.position. simpl.
  now destruct l.
Qed.

Lemma getitem_last {A} (l : list A) x :
  PyList.__getitem__ (l ++ [x]) (Z.of_nat (List.length l)) = Some x.
Proof.
  unfold PyList.__getitem__. rewrite length_app. simpl.
  rewrite Nat.add_1_r, position_last.
  rewrite nth_error_app2, Nat.sub_diag by lia. reflexivity.
Qed.

(** C5, amended: a write step whose segment is an integer out of the
    range of the list held under a dict key appends exactly one empty dict
    and goes on at the appended element when the index is not negative, at
    position 0 when it is negative; when the step is the last one the
    value is assigned there.  From [{"a": [1]}], writing ["a.5"] gives
    [{"a": [1, "v"]}], and item 1 of [a] is ["v"]. *)
Theorem out_of_range_write_appends_one
    (root : value) (p : loc) (d : dict) (k : key) (idx : string)
    (l : list value) (z : Z) :
  deref root p = Some (VDict d) ->
  PyDict.lookup d k = Some (VList l) ->
  PyStr.int idx = Some z ->
  Z.of_nat (List.length l) <= Z.abs z ->
  let node := Trav (p ++ [k]) in
  let parent := Some (Trav p, k) in
  let grown := l ++ [VDict []] in
  let position := if z >=? 0 then Z.of_nat (List.length l) else 0 in
  (set_try root node idx parent =
     Ok (plug root (p ++ [k]) (VList grown), node, KInt position) /\
   deref (plug root (p ++ [k]) (VList grown)) (p ++ [k]) = Some (VList grown) /\
   List.length grown = S (List.length l) /\
   (0 <= z -> PyList.__getitem__ grown position = Some (VDict []))) /\
  (forall v,
     set_ v root node [idx] parent =
       Ok (plug root (p ++ [k]) (VList (appended l z v))) /\
     PyList.__getitem__ (appended l z v) position = Some v /\
     List.length (appended l z v) = S (List.length l)) /\
  (exists root',
     _set (VDict [(KStr "a", VList [VInt 1])]) (KStr "a.5") (VStr "v") false =
       Ok (root', root') /\
     root' = VDict [(KStr "a", VList [VInt 1; VStr "v"])] /\
     __len__ root' [KStr "a"] = Ok 2 /\
     __getitem__ root' [KStr "a"] (IInt 1) = Ok (Scalar (SStr "v"))).
Proof.
  intros Hp Hk Hidx Hz node parent grown position.
  pose proof (deref_child _ _ _ _ _ Hp Hk) as Hc.
  set (q := p ++ [k]) in *.
  assert (Hc1 : deref (plug root q (VList grown)) q = Some (VList grown))
    by (eapply deref_plug; eassumption).
  assert (Hp1 : deref (plug root q (VList grown)) p =
                Some (VDict (PyDict.set d k (VList grown))))
    by (apply deref_plug_prefix; [assumption|congruence]).
  assert (Hlen : List.length grown = S (List.length l))
    by (unfold grown; rewrite length_app; simpl; lia).
  assert (Hstep : set_try root node idx parent =
                  Ok (plug root q (VList grown), node, KInt position)).
  { unfold set_try, node, parent. rewrite Hidx.
    unfold obj_raw, obj_len, __len__, parent_get, obj_get, obj_append, append.
    rewrite (raw_deref _ _ _ Hc), (get_child _ _ _ _ _ Hp Hk).
    cbn [bind is_list negb wrap_value]. fold q.
    replace (Z.abs z >=? Z.of_nat (List.length l)) with true
      by (symmetry; rewrite Z.geb_leb; apply Z.leb_le; lia).
    rewrite (raw_deref _ _ _ Hc). cbn [bind].
    rewrite (update_plug _ _ _ _ Hc). cbn [bind]. fold grown.
    unfold position. destruct (z >=? 0).
    - rewrite (raw_deref _ _ _ Hc1). cbn [bind].
      rewrite (get_child _ _ _ _ _ Hp1 (lookup_set_same _ _ _)).
      cbn [bind wrap_value]. fold q. rewrite Hlen.
      do 3 f_equal. lia.
    - cbn [bind].
      rewrite (get_child _ _ _ _ _ Hp1 (lookup_set_same _ _ _)).
      reflexivity. }
  split; [|split].
  - repeat split; try assumption.
    intros Hz0. unfold position.
    replace (z >=? 0) with true
      by (symmetry; rewrite Z.geb_leb; apply Z.leb_le; lia).
    apply getitem_last.
  - intros v. split; [|split].
    + cbn [set_]. rewrite Hstep. cbn [bind].
      unfold node, obj_setitem, __setitem__.
      rewrite (update_plug _ _ _ _ Hc1). unfold raw_setitem, position, appended.
      destruct (z >=? 0).
      * unfold grown. rewrite setitem_last. cbn [bind].
        now rewrite (plug_plug _ _ _ _ _ Hc).
      * unfold grown. rewrite setitem_first. cbn [bind].
        now rewrite (plug_plug _ _ _ _ _ Hc).
    + unfold position, appended. destruct (z >=? 0).
      * apply getitem_last.
      * reflexivity.
    + unfold appended. destruct (z >=? 0).
      * rewrite length_app. simpl. lia.
      * destruct l; simpl; [reflexivity|]. rewrite length_app. simpl. lia.
  - eexists. repeat split.
Qed.

Lemma out_of_range_write_witness :
  set_try (VDict [(KStr "a", VList [VInt 1])]) (Trav [KStr "a"]) "5"
    (Some (Trav [], KStr "a")) =
    Ok (VDict [(KStr "a", VList [VInt 1; VDict []])], Trav [KStr "a"], KInt 1) /\
  set_ (VStr "v") (VDict [(KStr "a", VList [VInt 1])]) (Trav [KStr "a"]) ["-5"]
    (Some (Trav [], KStr "a")) =
    Ok (VDict [(KStr "a", VList [VStr "v"; VDict []])]).
Proof.
  split.
  - exact (proj1 (proj1 (out_of_range_write_appends_one
                    (VDict [(KStr "a", VList [VInt 1])]) []
                    [(KStr "a", VList [VInt 1])] (KStr "a") "5" [VInt 1] 5
                    eq_refl eq_refl eq_refl ltac:(simpl; lia)))).
  - exact (proj1 (proj1 (proj2 (out_of_range_write_appends_one
                    (VDict [(KStr "a", VList [VInt 1])]) []
                    [(KStr "a", VList [VInt 1])] (KStr "a") "-5" [VInt 1] (-5)
                    eq_refl eq_refl eq_refl ltac:(simpl; lia))) (VStr "v"))).
Defined.

(** C5 as stated fails: after the write of ["a.5"] the read of ["a.1"]
    is [None]; the write of ["a.-5"] leaves the appended dict alone and
    overwrites the first element; and on a view over a list the write
    raises before anything is appended. *)
Lemma out_of_range_write_counterexample :
  (exists root',
     _set (VDict [(KStr "a", VList [VInt 1])]) (KStr "a.5") (VStr "v") false =
       Ok (root', root') /\
     _find root' [] (KStr "a.1") <> Ok (Plain (SStr "v"))) /\
  _set (VDict [(KStr "a", VList [VInt 1])]) (KStr "a.-5") (VStr "v") false =
    Ok (VDict [(KStr "a", VList [VStr "v"; VDict []])],
        VDict [(KStr "a", VList [VStr "v"; VDict []])]) /\
  _set (VList [VInt 1]) (KStr "5") (VStr "v") false = Raise AttributeError.
Proof.
  split; [|repeat split].
  eexists. split; [reflexivity|]. discriminate.
Qed.

(** A node that is not a Traverser cannot be called: an integer segment
    below a missing key or a scalar raises [TypeError]. *)
Lemma set__integer_below_scalar v root s idx ks parent :
  match PyStr.int idx with
  | Some _ => set_ v root (Plain s) (idx :: ks) parent = Raise TypeError
  | None => True
  end.
Proof.
  destruct (PyStr.int idx) as [z|] eqn:E; [|exact I].
  cbn [set_]. unfold set_try. now rewrite E.
Qed.

(** C1: the example of the specification.  On [{}] the write of
    ["a.0.b"] raises [TypeError]: the node under the missing key ["a"] is
    [None], and the integer branch calls it.  Where a write through a list
    does return, the read of the same path is [None]. *)
Theorem set_then_get_on_spec_example :
  _set (VDict []) (KStr "a.0.b") (VInt 5) false = Raise TypeError /\
  (forall v root s idx ks parent,
     match PyStr.int idx with
     | Some _ => set_ v root (Plain s) (idx :: ks) parent = Raise TypeError
     | None => True
     end) /\
  _set (VDict [(KStr "x", VDict [])]) (KStr "x.0") (VStr "v") false =
    Ok (VDict [(KStr "x", VList [VStr "v"])],
        VDict [(KStr "x", VList [VStr "v"])]) /\
  _find (VDict [(KStr "x", VList [VStr "v"])]) [] (KStr "x.0") =
    Ok (Plain SNone).
Proof.
  repeat split. intros. apply set__integer_below_scalar.
Qed.

(** C2: on [{}] the write of ["x.0"] raises [TypeError]; so does the
    write over a scalar.  Only a dict found at the position is replaced by
    a one-element list, whose element the last segment overwrites; a
    further segment raises [AttributeError]. *)
Theorem autovivify_sequence_on_spec_example :
  _set (VDict []) (KStr "x.0") (VStr "v") false = Raise TypeError /\
  _set (VDict [(KStr "x", VInt 7)]) (KStr "x.0") (VStr "v") false =
    Raise TypeError /\
  _set (VDict [(KStr "x", VDict [(KStr "k", VInt 1)])]) (KStr "x.0")
       (VStr "v") false =
    Ok (VDict [(KStr "x", VList [VStr "v"])],
        VDict [(KStr "x", VList [VStr "v"])]) /\
  _set (VDict [(KStr "x", VDict [(KStr "k", VInt 1)])]) (KStr "x.0.y")
       (VStr "v") false =
    Raise AttributeError.
Proof. repeat split. Qed.

Lemma set_on_list_root_raises l ks v :
  raises (set_ v (VList l) (Trav []) ks None) = true.
Proof.
  destruct ks as [|k ks]; [reflexivity|].
  cbn [set_]. unfold set_try, set_except.
  destruct (PyStr.int k) as [z|].
  - cbn. now destruct (Z.abs z >=? Z.of_nat (List.length l)).
  - cbn. now destruct l.
Qed.

(** C9: [__call__] without a path raises only for a truthy value, and
    [_set] raises on an integer first segment, on a truthy scalar in the
    way, on an escaped first segment and on every view over a list. *)
Theorem set_and_call_failures :
  (forall root v,
     __call__ root None v =
     if truthy v then Raise ValueError else Ok (root, Internal root)) /\
  __call__ (VDict []) None (VInt 0) = Ok (VDict [], Internal (VDict [])) /\
  __call__ (VDict []) None (VStr "") = Ok (VDict [], Internal (VDict [])) /\
  _set (VDict []) (KStr "0") (VInt 1) false = Raise TypeError /\
  _set (VDict [(KStr "a", VInt 5)]) (KStr "a.b") (VInt 1) false =
    Raise TypeError /\
  _set (VDict []) (KStr "a..b.c") (VInt 1) false = Raise TypeError /\
  (forall l path v deepcopy,
     raises (_set (VList l) (KStr path) v deepcopy) = true).
Proof.
  repeat split.
  intros l path v deepcopy. unfold _set.
    pose proof (set_on_list_root_raises l (split_escaped path) v) as H.
    now destruct (set_ v (VList l) (Trav []) (split_escaped path) None).
Qed.

(** * The locations of [set_] *)

Lemma linked_valid root node parent : linked root node parent -> valid root node.
Proof.
  destruct parent as [[o pk]|]; simpl.
  - intros (pp & d & _ & H & ->). now apply wrap_value_valid.
  - intros ->. now exists root.
Qed.

Lemma linked_get root node pp pk :
  linked root node (Some (Trav pp, pk)) -> get root pp pk = Ok node.
Proof.
  intros (pp' & d & [= <-] & H & ->). unfold get.
  now rewrite (raw_deref _ _ _ H).
Qed.

Lemma linked_location root q pp pk :
  linked root (Trav q) (Some (Trav pp, pk)) ->
  q = pp ++ [pk] /\
  exists d, deref root pp = Some (VDict d) /\ PyDict.lookup d pk <> None.
Proof.
  intros (pp' & d & [= <-] & H & E). unfold PyDict.get in E.
  destruct (PyDict.lookup d pk) as [c|] eqn:L; [|discriminate].
  destruct c; try discriminate; injection E as ->;
    (split; [reflexivity|exists d; split; [assumption|congruence]]).
Qed.

Lemma parent_setitem_plug root pp pk d x :
  deref root pp = Some (VDict d) ->
  parent_setitem root (Some (Trav pp, pk)) x =
    Ok (plug root pp (VDict (PyDict.set d pk x))).
Proof.
  intros H. unfold parent_setitem, obj_setitem, __setitem__.
  now rewrite (update_plug _ _ _ _ H).
Qed.

Lemma get_after_setitem root pp pk d x :
  deref root pp = Some (VDict d) ->
  get (plug root pp (VDict (PyDict.set d pk x))) pp pk =
    Ok (wrap_value (pp ++ [pk]) x).
Proof.
  intros H. eapply get_child; [eapply deref_plug; eassumption|].
  apply lookup_set_same.
Qed.

Lemma set_try_ok root node k parent :
  linked root node parent -> step_ok (set_try root node k parent).
Proof.
  intros L. unfold set_try. destruct (PyStr.int k) as [z|]; [|discriminate].
  destruct node as [s|q]; [discriminate|].
  destruct parent as [[o pk]|].
  - pose proof L as (pp & d & -> & Hpp & _).
    destruct (linked_location _ _ _ _ L) as (-> & d' & Hpp' & Hk).
    rewrite Hpp in Hpp'. injection Hpp' as <-.
    destruct (PyDict.lookup d pk) as [c|] eqn:Lk; [|congruence].
    pose proof (deref_child _ _ _ _ _ Hpp Lk) as Hc.
    cbn [obj_raw]. rewrite (raw_deref _ _ _ Hc). cbn [bind].
    destruct (is_list c) eqn:Il; cbn [negb].
    + destruct c as [|l|]; try discriminate.
      unfold obj_len, __len__. rewrite (raw_deref _ _ _ Hc). cbn [bind].
      unfold parent_get, obj_get. rewrite (linked_get _ _ _ _ L). cbn [bind].
      destruct (Z.abs z >=? _).
      * unfold obj_append, append. rewrite (raw_deref _ _ _ Hc). cbn [bind].
        rewrite (update_plug _ _ _ _ Hc). cbn [bind].
        set (l1 := l ++ [VDict []]).
        set (root1 := plug root (pp ++ [pk]) (VList l1)).
        assert (Hc1 : deref root1 (pp ++ [pk]) = Some (VList l1))
          by (eapply deref_plug; eassumption).
        assert (Hp1 : deref root1 pp = Some (VDict (PyDict.set d pk (VList l1))))
          by (apply deref_plug_prefix; [assumption|congruence]).
        destruct (z >=? 0); [rewrite (raw_deref _ _ _ Hc1)|]; cbn [bind];
          rewrite (get_child _ _ _ _ _ Hp1 (lookup_set_same _ _ _));
          cbn [bind wrap_value step_ok valid]; eauto.
      * cbn [step_ok valid]. eauto.
    + rewrite (parent_setitem_plug _ _ _ _ _ Hpp). cbn [bind].
      unfold parent_get, obj_get. rewrite (get_after_setitem _ _ _ _ _ Hpp).
      cbn [bind wrap_value step_ok valid].
      eexists. eapply deref_child;
        [eapply deref_plug; eassumption|apply lookup_set_same].
  - simpl in L. injection L as ->. cbn.
    destruct (is_list root); cbn; [|discriminate].
    destruct root as [s|l|d]; cbn;
      destruct (Z.abs z >=? _); discriminate.
Qed.

Lemma set_except_ok root node k parent :
  linked root node parent -> step_ok (set_except root node k parent).
Proof.
  intros L. pose proof (linked_valid _ _ _ L) as V.
  unfold set_except.
  assert (Hb : exists b, obj_bool root node = Ok b).
  { destruct node as [s|q]; [now eexists|].
    destruct V as (c & Hc). unfold obj_bool, __bool__, __len__.
    rewrite (raw_deref _ _ _ Hc). now eexists. }
  destruct Hb as (b & ->). cbn [bind].
  assert (Hr : (exists r, (if negb b then Ok true
                           else v <- obj_raw root node ;; Ok (negb (is_dict v)))
                          = Ok r) \/
               (if negb b then Ok true
                else v <- obj_raw root node ;; Ok (negb (is_dict v)))
               = Raise TypeError).
  { destruct b; cbn [negb]; [|left; now eexists].
    destruct node as [s|q]; [now right|].
    destruct V as (c & Hc). cbn [obj_raw]. rewrite (raw_deref _ _ _ Hc).
    left. now eexists. }
  destruct Hr as [(r & ->)| ->]; [|discriminate]. cbn [bind].
  destruct r; [|exact V].
  destruct parent as [[o pk]|]; [|discriminate].
  destruct L as (pp & d & -> & Hpp & _).
  rewrite (parent_setitem_plug _ _ _ _ _ Hpp). cbn [bind].
  set (root1 := plug root pp _).
  assert (Hp1 : deref root1 pp = Some (VDict (PyDict.set d pk (VDict []))))
    by (eapply deref_plug; eassumption).
  unfold parent_find, obj_find, _find.
  destruct pk as [s|z]; [|discriminate].
  destruct (find_get_total (split_escaped s) root1 pp _
              (split_escaped_nonempty s) Hp1) as (o & -> & Ho).
  exact Ho.
Qed.

Lemma raw_setitem_no_detached k v c : raw_setitem k v c <> Raise Detached.
Proof.
  destruct c as [s|l|d], k as [s'|z]; try discriminate.
  simpl. destruct (PyList.__setitem__ l z v); discriminate.
Qed.

(** The locations [set_] follows always lead into the store. *)
Lemma set__never_detached v ks : forall root node parent,
  linked root node parent ->
  set_ v root node ks parent <> Raise Detached.
Proof.
  induction ks as [|k ks IH]; intros root node parent L; [discriminate|].
  cbn [set_].
  assert (S : step_ok match set_try root node k parent with
                      | Raise ValueError => set_except root node k parent
                      | r => r
                      end).
  { pose proof (set_try_ok root node k parent L) as T.
    destruct (set_try root node k parent) as [r|e]; [exact T|].
    destruct e; try exact T. now apply set_except_ok. }
  destruct (match set_try root node k parent with
            | Raise ValueError => set_except root node k parent
            | r => r
            end) as [[[root1 node1] k1]|e]; cbn [bind step_ok] in *;
    [|congruence].
  destruct node1 as [s|q]; [destruct ks; discriminate|].
  destruct S as (c & Hc).
  destruct ks as [|k' ks].
  - unfold obj_setitem, __setitem__. rewrite (update_plug _ _ _ _ Hc).
    pose proof (raw_setitem_no_detached k1 v c).
    destruct (raw_setitem k1 v c); [discriminate|cbn [bind]; congruence].
  - unfold obj_get, get. rewrite (raw_deref _ _ _ Hc). cbn [bind].
    destruct c as [s|l|d]; try discriminate. cbn [bind].
    apply IH. exists q, d. auto.
Qed.

Lemma linked_at_linked root node parent q :
  linked_at root node parent q -> linked root node parent.
Proof.
  destruct parent as [[o pk]|]; simpl.
  - intros (pp & k & d & -> & -> & _ & -> & H & ->). now exists pp, d.
  - now intros [-> _].
Qed.

Lemma set_except_plain root node k parent q root1 node1 k1 :
  linked_at root node parent q ->
  set_except root node k parent = Ok (root1, node1, k1) ->
  node1 = Trav q /\ k1 = KStr k /\
  exists d1, deref root1 q = Some (VDict d1).
Proof.
  intros L H. unfold set_except in H.
  bind_inv H. bind_inv H. destruct a0.
  - destruct parent as [[o pk]|]; [|discriminate].
    destruct L as (pp & k0 & d & -> & -> & [_ Hs] & -> & Hpp & _).
    rewrite (parent_setitem_plug _ _ _ _ _ Hpp) in H. cbn [bind] in H.
    unfold parent_find, obj_find, _find in H. rewrite Hs in H.
    assert (Hp1 : deref (plug root pp (VDict (PyDict.set d (KStr k0) (VDict []))))
                        pp = Some (VDict (PyDict.set d (KStr k0) (VDict []))))
      by (eapply deref_plug; eassumption).
    rewrite (find_get_dict _ _ _ _ _ Hp1) in H.
    unfold PyDict.get in H. rewrite lookup_set_same in H.
    cbn [wrap_value bind] in H. injection H as <- <- <-.
    repeat split. eexists.
    eapply deref_child; [exact Hp1|apply lookup_set_same].
  - injection H as <- <- <-.
    destruct a; [|discriminate]. cbn [negb] in E0.
    bind_inv E0. injection E0 as E0. apply negb_false_iff in E0.
    destruct a as [s|l|d1]; try discriminate.
    destruct node as [s|q']; [discriminate|].
    cbn [obj_raw] in E1. unfold raw in E1.
    destruct (deref root q') eqn:D; [|discriminate]. injection E1 as ->.
    assert (q' = q) as ->.
    { destruct parent as [[o pk]|]; simpl in L.
      - destruct L as (pp & k0 & d & _ & _ & _ & _ & _ & E').
        destruct (PyDict.get d pk VNone); simpl in E'; congruence.
      - destruct L as [E' ->]. congruence. }
    repeat split. now exists d1.
Qed.

(** Read/write consistency on paths of plain dict keys: when the write
    returns, the read of the same segments finds the value written. *)
Lemma set__find_get_plain v ks : forall root node parent q root',
  Forall plain ks ->
  linked_at root node parent q ->
  set_ v root node ks parent = Ok root' ->
  (exists d', deref root' q = Some (VDict d')) /\
  find_get root' q ks = Ok (wrap_value (q ++ map KStr ks) v).
Proof.
  induction ks as [|k ks IH]; intros root node parent q root' P L H;
    [discriminate|].
  inversion P as [|? ? [Hint Hsplit] P']; subst.
  cbn [set_] in H. unfold set_try at 1 in H. rewrite Hint in H.
  bind_inv H. destruct a as [[root1 node1] k1]. cbn beta iota in H.
  destruct (set_except_plain _ _ _ _ _ _ _ _ L E) as (-> & -> & d1 & Hq).
  destruct ks as [|k' ks].
  - unfold obj_setitem, __setitem__ in H.
    rewrite (update_plug _ _ _ _ Hq) in H. cbn in H. injection H as <-.
    assert (Hq' : deref (plug root1 q (VDict (PyDict.set d1 (KStr k) v))) q =
                  Some (VDict (PyDict.set d1 (KStr k) v)))
      by (eapply deref_plug; eassumption).
    split; [eauto|].
    rewrite (find_get_dict _ _ _ _ _ Hq'). unfold PyDict.get.
    now rewrite lookup_set_same.
  - bind_inv H. unfold obj_get, get in E0.
    rewrite (raw_deref _ _ _ Hq) in E0. cbn [bind] in E0.
    injection E0 as <-.
    assert (L1 : linked_at root1
                   (wrap_value (q ++ [KStr k]) (PyDict.get d1 (KStr k) VNone))
                   (Some (Trav q, KStr k)) (q ++ [KStr k])).
    { exists q, k, d1. repeat split; assumption. }
    destruct (IH _ _ _ _ _ P' L1 H) as ((d'' & Hd'') & Hfind).
    rewrite deref_app in Hd''.
    destruct (deref root' q) as [c|] eqn:Dq; [|discriminate].
    destruct c as [s|l|d']; try discriminate.
    split; [eauto|].
    rewrite (find_get_dict _ _ _ _ _ Dq). unfold PyDict.get.
    simpl in Hd''. destruct (PyDict.lookup d' (KStr k)); [|discriminate].
    injection Hd'' as ->. cbn [wrap_value].
    rewrite Hfind. now rewrite <- app_assoc.
Qed.

Lemma set_then_find_plain root path v root' :
  Forall plain (split_escaped path) ->
  _set root (KStr path) v false = Ok (root', root') ->
  _find root' [] (KStr path) =
    Ok (wrap_value (map KStr (split_escaped path)) v).
Proof.
  intros P H. unfold _set in H. bind_inv H. injection H as <-.
  unfold _find.
  now apply (set__find_get_plain v _ root (Trav []) None [] a P (conj eq_refl eq_refl)).
Qed.

Example set_then_find_plain_abc :
  _find (VDict [(KStr "a", VDict [(KStr "b", VDict [(KStr "c", VInt 1)])])])
        [] (KStr "a.b.c") = Ok (Plain (SInt 1)).
Proof.
  apply (set_then_find_plain (VDict []) "a.b.c" (VInt 1)); [|reflexivity].
  repeat constructor.
Qed.

(** * The container invariant *)

Lemma update_traversable p : forall root f root',
  (forall c c', f c = Ok c' -> traversable c = true -> traversable c' = true) ->
  traversable root = true ->
  update root p f = Ok root' ->
  traversable root' = true.
Proof.
  destruct p as [|k p]; intros root f root' Hf Hr H; simpl in H; [eauto|].
  destruct root as [s|l|d]; try discriminate.
  destruct (PyDict.lookup d k); [|discriminate].
  bind_inv H. now injection H as <-.
Qed.

Lemma raw_setitem_traversable k v c c' :
  raw_setitem k v c = Ok c' -> traversable c = true -> traversable c' = true.
Proof.
  unfold raw_setitem. intros H _.
  destruct c as [s|l|d]; [discriminate| |now injection H as <-].
  destruct k; [discriminate|].
  destruct (PyList.__setitem__ l z v); [now injection H as <-|discriminate].
Qed.

Lemma raw_delitem_traversable k c c' :
  raw_delitem k c = Ok c' -> traversable c = true -> traversable c' = true.
Proof.
  unfold raw_delitem. intros H _.
  destruct c as [s|l|d]; [discriminate| |].
  - destruct k; [discriminate|].
    destruct (PyList.__delitem__ l z); [now injection H as <-|discriminate].
  - destruct (PyDict.del d k); [now injection H as <-|discriminate].
Qed.

Lemma obj_setitem_traversable root o k v root' :
  traversable root = true -> obj_setitem root o k v = Ok root' ->
  traversable root' = true.
Proof.
  intros Hr H. destruct o as [s|p]; [discriminate|].
  eapply update_traversable; [|exact Hr|exact H].
  intros c c'. apply raw_setitem_traversable.
Qed.

Lemma parent_setitem_traversable root parent v root' :
  traversable root = true -> parent_setitem root parent v = Ok root' ->
  traversable root' = true.
Proof.
  intros Hr H. destruct parent as [[o k]|]; [|discriminate].
  eapply obj_setitem_traversable; eassumption.
Qed.

Lemma append_traversable root p item root' :
  traversable root = true -> append root p item = Ok root' ->
  traversable root' = true.
Proof.
  unfold append. intros Hr H. bind_inv H.
  destruct a as [s|l|d].
  - destruct p; injection H as <-; [reflexivity|assumption].
  - eapply update_traversable; [|exact Hr|exact H].
    intros c c' Hc _. now injection Hc as <-.
  - destruct p; injection H as <-; [reflexivity|assumption].
Qed.

Lemma extend_traversable root p item root' :
  traversable root = true -> extend root p item = Ok root' ->
  traversable root' = true.
Proof.
  unfold extend. intros Hr H. bind_inv H.
  destruct a as [s|l|d].
  - destruct p; injection H as <-; [reflexivity|assumption].
  - eapply update_traversable; [|exact Hr|exact H].
    intros c c' Hc _. now injection Hc as <-.
  - destruct p; injection H as <-; [reflexivity|assumption].
Qed.

Lemma set_try_traversable root node k parent root' node' k' :
  traversable root = true ->
  set_try root node k parent = Ok (root', node', k') ->
  traversable root' = true.
Proof.
  unfold set_try. intros Hr H.
  destruct (PyStr.int k) as [z|]; [|discriminate].
  bind_inv H. destruct (negb (is_list a)).
  - bind_inv H. bind_inv H. injection H as <- _ _.
    eapply parent_setitem_traversable; eassumption.
  - bind_inv H. destruct (Z.abs z >=? a0).
    + bind_inv H. bind_inv H. bind_inv H. bind_inv H. injection H as <- _ _.
      destruct a1 as [s|q]; [discriminate|].
      eapply append_traversable; eassumption.
    + bind_inv H. now injection H as <- _ _.
Qed.

Lemma set_except_traversable root node k parent root' node' k' :
  traversable root = true ->
  set_except root node k parent = Ok (root', node', k') ->
  traversable root' = true.
Proof.
  unfold set_except. intros Hr H.
  bind_inv H. bind_inv H. destruct a0.
  - bind_inv H. bind_inv H. injection H as <- _ _.
    eapply parent_setitem_traversable; eassumption.
  - now injection H as <- _ _.
Qed.

Lemma set__traversable v ks : forall root node parent root',
  traversable root = true ->
  set_ v root node ks parent = Ok root' ->
  traversable root' = true.
Proof.
  induction ks as [|k ks IH]; intros root node parent root' Hr H;
    [discriminate|].
  cbn [set_] in H. bind_inv H. destruct a as [[root1 node1] k1].
  cbn beta iota in H.
  assert (Hr1 : traversable root1 = true).
  { destruct (set_try root node k parent) as [[[r n] k0]|e] eqn:T.
    - injection E as -> -> ->. eapply set_try_traversable; eassumption.
    - destruct e; try discriminate.
      eapply set_except_traversable; eassumption. }
  destruct ks as [|k' ks].
  - eapply obj_setitem_traversable; eassumption.
  - bind_inv H. eapply IH; eassumption.
Qed.

Lemma prune_traversable f v :
  traversable (Filter.prune f v) = traversable v.
Proof. now destruct v. Qed.

(** C10: the value a view wraps is a list or a dict.  The constructor
    raises [ValueError] for anything else, and [append], [extend],
    [__setitem__], [__delitem__], [_set] and [prune] leave a container;
    [append] and [extend] on a view that does not wrap a list rebind it to
    [[old, item]] and [[old] + items]. *)
Theorem wrapped_value_is_container (root : value) :
  traversable root = true ->
  (forall v,
     match __init__ v with
     | Ok s => s = v /\ traversable v = true
     | Raise e => e = ValueError /\ traversable v = false
     end) /\
  (forall item,
     exists root',
       append root [] item = Ok root' /\ traversable root' = true /\
       (is_list root = false -> root' = VList [root; item])) /\
  (forall item,
     exists root',
       extend root [] item = Ok root' /\ traversable root' = true /\
       (is_list root = false -> root' = VList ([root] ++ ensure_list item))) /\
  (forall k v root',
     __setitem__ root [] k v = Ok root' -> traversable root' = true) /\
  (forall k root',
     __delitem__ root [] k = Ok root' -> traversable root' = true) /\
  (forall path v deepcopy self' copy,
     _set root path v deepcopy = Ok (self', copy) ->
     traversable self' = true /\ traversable copy = true) /\
  (forall f o,
     traversable
       (internals_value
          (prune {| internals_value := root; internals_filter := f |} o)) = true).
Proof.
  intros Hr. repeat apply conj.
  - intros v. unfold __init__. now destruct (traversable v).
  - intros item. destruct root as [s|l|d]; try discriminate;
      cbn; eexists; repeat split; discriminate.
  - intros item. destruct root as [s|l|d]; try discriminate;
      cbn; eexists; repeat split; discriminate.
  - intros k v root' H.
    eapply (obj_setitem_traversable root (Trav [])); eassumption.
  - intros k root' H. cbn in H.
    eapply raw_delitem_traversable; eassumption.
  - intros path v deepcopy self' copy H. unfold _set in H.
    destruct path as [path|z]; [|discriminate].
    bind_inv H. apply set__traversable in E; [|assumption].
    destruct deepcopy; injection H as <- <-; auto.
  - intros f o. unfold prune. cbn [internals_filter internals_value].
    destruct o as [g|]; [|destruct f as [g|]]; cbn [internals_value];
      try assumption; now rewrite prune_traversable.
Qed.

Lemma wrapped_value_is_container_witness :
  append (VDict [(KStr "a", VInt 1)]) [] (VInt 2) =
    Ok (VList [VDict [(KStr "a", VInt 1)]; VInt 2]).
Proof.
  destruct (wrapped_value_is_container (VDict [(KStr "a", VInt 1)]) eq_refl)
    as (_ & Happend & _).
  destruct (Happend (VInt 2)) as (root' & H & _ & Hl).
  rewrite <- (Hl eq_refl). exact H.
Defined.

(** * Filter *)

Section FilterFacts.

Variable f : Filter.t.

Lemma filter_filter {A} (P Q : A -> bool) l :
  filter P (filter Q l) = filter (fun x => Q x && P x) l.
Proof.
  induction l as [|a l IH]; simpl; [reflexivity|].
  destruct (Q a); simpl; [destruct (P a)|]; now rewrite IH.
Qed.

Lemma filter_true {A} (P : A -> bool) l :
  (forall x, P x = true) -> filter P l = l.
Proof.
  intros H. induction l as [|a l IH]; simpl; [reflexivity|].
  now rewrite H, IH.
Qed.

Lemma select_retained ks : Filter.select f ks = filter (retained f) ks.
Proof.
  unfold Filter.select, retained.
  destruct (Filter.blacklist f) as [|b bl], (Filter.whitelist f) as [|w wl];
    cbn [Filter.nonempty negb orb].
  - symmetry. now apply filter_true.
  - apply filter_ext. intros k. reflexivity.
  - apply filter_ext. intros k. now rewrite andb_true_r.
  - rewrite filter_filter. apply filter_ext. intros k. reflexivity.
Qed.

Lemma keys_eqb_eq a : forall b, keys_eqb a b = true <-> a = b.
Proof.
  induction a as [|x a IH]; intros [|y b]; simpl; split; intros H;
    try discriminate; try reflexivity.
  - apply andb_prop in H as [H1 H2]. apply key_eqb_eq in H1. apply IH in H2.
    congruence.
  - injection H as -> ->. rewrite key_eqb_refl. now apply IH.
Qed.

Lemma mem_filter (P : key -> bool) k ks :
  PyDict.mem k (filter P ks) = PyDict.mem k ks && P k.
Proof.
  unfold PyDict.mem. induction ks as [|a ks IH]; simpl; [reflexivity|].
  destruct (key_eqb k a) eqn:E.
  - apply key_eqb_eq in E. subst a. destruct (P k) eqn:Pk; simpl.
    + now rewrite key_eqb_refl.
    + rewrite IH. apply andb_false_r.
  - simpl. destruct (P a); simpl; [rewrite E|]; exact IH.
Qed.

Lemma left_at_lookup right_value key d :
  left_at f right_value key d =
  match PyDict.lookup d key with
  | Some l =>
      match PyDict.lookup right_value key with
      | Some r => Filter.are_equal f l r
      | None => Raise KeyError
      end
  | None => Raise KeyError
  end.
Proof.
  induction d as [|[k l] d IH]; simpl; [reflexivity|].
  destruct (key_eqb k key); [reflexivity|exact IH].
Qed.

Lemma each_key_true left_value right_value ks :
  each_key f left_value right_value ks = Ok true <->
  Forall (equal_at f left_value right_value) ks.
Proof.
  induction ks as [|k ks IH]; simpl; [split; auto|].
  rewrite left_at_lookup. split.
  - intros H.
    destruct (PyDict.lookup left_value k) as [l|] eqn:El; [|discriminate].
    destruct (PyDict.lookup right_value k) as [r|] eqn:Er; [|discriminate].
    destruct (Filter.are_equal f l r) as [[|]|e] eqn:Eq; try discriminate.
    constructor; [|now apply IH]. now exists l, r.
  - intros H. inversion H as [|? ? (l & r & El & Er & Eq) Hks]; subst.
    rewrite El, Er, Eq. now apply IH.
Qed.

Lemma are_equal_dict left_value right_value :
  Filter.are_equal f (VDict left_value) (VDict right_value) =
  (left_keys <- sorted (PyDict.keys left_value) ;;
   right_keys <- sorted (PyDict.keys right_value) ;;
   if negb (keys_eqb (Filter.select f left_keys) (Filter.select f right_keys))
   then Ok false
   else each_key f left_value right_value (Filter.select f left_keys)).
Proof. reflexivity. Qed.

Lemma prune_dict d :
  Filter.prune f (VDict d) =
  VDict (prune_items f (Filter.select f (PyDict.keys d)) d).
Proof. reflexivity. Qed.

Lemma prune_items_retained ks : forall items,
  (forall k v, In (k, v) items -> PyDict.mem k ks = true) ->
  prune_items f (Filter.select f ks) items =
  map (fun kv => (fst kv, Filter.prune f (snd kv)))
      (filter (fun kv => retained f (fst kv)) items).
Proof.
  induction items as [|[k v] items IH]; intros H; simpl; [reflexivity|].
  rewrite select_retained, mem_filter, (H k v) by now left.
  simpl. rewrite <- select_retained.
  destruct (retained f k); simpl; rewrite IH; auto;
    intros k' v' Hin; apply (H k' v'); now right.
Qed.

Lemma mem_keys d k v : In (k, v) d -> PyDict.mem k (PyDict.keys d) = true.
Proof.
  intros H. unfold PyDict.mem, PyDict.keys. apply existsb_exists.
  exists k. split; [|apply key_eqb_refl].
  apply in_map_iff. now exists (k, v).
Qed.

End FilterFacts.

Section AreEqualTotal.

Variable f : Filter.t.

Lemma are_equal_list ls rs :
  Filter.are_equal f (VList ls) (VList rs) =
  if negb (List.length ls =? List.length rs)%nat then Ok false
  else each_item f ls rs.
Proof. reflexivity. Qed.

Lemma insert_key_str k ks :
  is_str k = true -> forallb is_str ks = true ->
  exists r, insert_key k ks = Ok r /\ forallb is_str r = true.
Proof.
  intros Hk. induction ks as [|a ks IH]; intros H; simpl in *.
  - exists [k]. simpl. now rewrite Hk.
  - apply andb_prop in H as [Ha H].
    destruct k as [s|]; [|discriminate]. destruct a as [t|]; [|discriminate].
    simpl. destruct (String.ltb s t).
    + eexists. split; [reflexivity|]. simpl. now rewrite H.
    + destruct (IH H) as (r & -> & Hr). eexists. split; [reflexivity|].
      simpl. exact Hr.
Qed.

Lemma sorted_str ks :
  forallb is_str ks = true ->
  exists r, sorted ks = Ok r /\ forallb is_str r = true.
Proof.
  induction ks as [|k ks IH]; intros H; simpl in *; [now exists []|].
  apply andb_prop in H as [Hk H]. destruct (IH H) as (r & -> & Hr).
  simpl. now apply insert_key_str.
Qed.

Lemma insert_key_in k ks r :
  insert_key k ks = Ok r -> forall x, In x r <-> x = k \/ In x ks.
Proof.
  revert r. induction ks as [|a ks IH]; intros r H x; simpl in H.
  - injection H as <-. simpl. intuition.
  - destruct (key_lt k a) as [[|]|]; simpl in H; try discriminate.
    + injection H as <-. simpl. intuition.
    + destruct (insert_key k ks) as [r'|]; [|discriminate].
      injection H as <-. simpl. rewrite (IH r' eq_refl x). intuition.
Qed.

Lemma sorted_in ks : forall r,
  sorted ks = Ok r -> forall x, In x r <-> In x ks.
Proof.
  induction ks as [|k ks IH]; intros r H x; simpl in H.
  - injection H as <-. reflexivity.
  - destruct (sorted ks) as [r'|]; [|discriminate]. simpl in H.
    rewrite (insert_key_in _ _ _ H x), (IH r' eq_refl x). simpl. intuition.
Qed.

Lemma lookup_in_keys d k :
  In k (PyDict.keys d) ->
  exists k' v, PyDict.lookup d k = Some v /\ In (k', v) d.
Proof.
  induction d as [|[a v] d IH]; simpl; [easy|]. intros H.
  destruct (key_eqb a k) eqn:E.
  - exists a, v. auto.
  - destruct H as [->|H]; [now rewrite key_eqb_refl in E|].
    destruct (IH H) as (k' & w & -> & Hin). exists k', w. auto.
Qed.

Lemma select_subset ks k : In k (Filter.select f ks) -> In k ks.
Proof. rewrite select_retained. intros H. now apply filter_In in H. Qed.

Lemma keys_str_keyed d :
  str_keyed (VDict d) = true -> forallb is_str (PyDict.keys d) = true.
Proof.
  induction d as [|[k v] d IH]; simpl; [reflexivity|]. intros H.
  apply andb_prop in H as [H1 H2]. apply andb_prop in H1 as [-> _].
  now apply IH.
Qed.

Lemma item_str_keyed d k v :
  str_keyed (VDict d) = true -> In (k, v) d -> str_keyed v = true.
Proof.
  simpl. rewrite forallb_forall. intros H Hin.
  apply H in Hin. now apply andb_prop in Hin.
Qed.

(** On values decoded from JSON the comparison returns. *)
Lemma are_equal_total : forall left right,
  str_keyed left = true -> str_keyed right = true ->
  exists b, Filter.are_equal f left right = Ok b.
Proof.
  induction left as [s|ls IH|dl IH] using value_ind; intros right Hl Hr.
  - destruct right; now eexists.
  - destruct right as [s|rs|dr]; try now eexists.
    rewrite are_equal_list.
    destruct (List.length ls =? List.length rs)%nat eqn:E; [|now eexists].
    apply Nat.eqb_eq in E. cbn [negb].
    simpl in Hl, Hr. revert rs E Hr.
    induction IH as [|item ls Hitem _ IHls]; intros rs E Hr; [now eexists|].
    destruct rs as [|r rs]; [discriminate|]. simpl in E, Hl, Hr.
    apply andb_prop in Hl as [Hl1 Hl2]. apply andb_prop in Hr as [Hr1 Hr2].
    cbn [each_item]. destruct (Hitem r Hl1 Hr1) as (b & ->). cbn [bind].
    destruct b; [|now eexists]. apply IHls; auto.
  - destruct right as [s|rs|dr]; try now eexists.
    rewrite are_equal_dict.
    destruct (sorted_str _ (keys_str_keyed _ Hl)) as (lk & El & _).
    destruct (sorted_str _ (keys_str_keyed _ Hr)) as (rk & Er & _).
    rewrite El, Er. cbn [bind].
    destruct (keys_eqb (Filter.select f lk) (Filter.select f rk)) eqn:E;
      [|now eexists].
    cbn [negb]. apply keys_eqb_eq in E.
    assert (Hks : forall k, In k (Filter.select f lk) ->
                  In k (PyDict.keys dl) /\ In k (PyDict.keys dr)).
    { intros k Hk. split.
      - apply (sorted_in _ _ El). now apply select_subset.
      - apply (sorted_in _ _ Er). apply select_subset. now rewrite <- E. }
    clear E. induction (Filter.select f lk) as [|k ks IHks]; [now eexists|].
    cbn [each_key]. rewrite left_at_lookup.
    destruct (Hks k (or_introl eq_refl)) as [Hkl Hkr].
    destruct (lookup_in_keys _ _ Hkl) as (kl & l & -> & Hinl).
    destruct (lookup_in_keys _ _ Hkr) as (kr & r & -> & Hinr).
    rewrite Forall_forall in IH.
    destruct (IH (kl, l) Hinl r (item_str_keyed _ _ _ Hl Hinl)
                (item_str_keyed _ _ _ Hr Hinr)) as (b & Hb).
    cbn [snd] in Hb. rewrite Hb.
    cbn [bind]. destruct b; [|now eexists].
    apply IHks. intros k' Hk'. apply Hks. now right.
Qed.

End AreEqualTotal.

(** C8: [prune] leaves a scalar alone, prunes every element of a list
    and keeps them all, and in a dict drops the items whose key is not
    retained and prunes the values of the others. *)
Theorem prune_removes_unretained_keys (f : Filter.t) :
  (forall s, Filter.prune f (VScalar s) = VScalar s) /\
  (forall l,
     Filter.prune f (VList l) = VList (map (Filter.prune f) l) /\
     List.length (map (Filter.prune f) l) = List.length l) /\
  (forall d,
     Filter.prune f (VDict d) =
     VDict (map (fun kv => (fst kv, Filter.prune f (snd kv)))
                (filter (fun kv => retained f (fst kv)) d))) /\
  Filter.prune (Filter.__init__ (Filter.KeyList [KStr "id"]) Filter.NoKeys)
    (VDict [(KStr "id", VInt 1);
            (KStr "y", VDict [(KStr "id", VInt 2); (KStr "z", VInt 3)])]) =
  VDict [(KStr "y", VDict [(KStr "z", VInt 3)])].
Proof.
  repeat split.
  - apply length_map.
  - intros d. rewrite prune_dict. f_equal.
    apply prune_items_retained. intros k v. apply mem_keys.
Qed.

(** * Writes along plain segments *)

Lemma plug_child pp : forall root dpp k c x,
  deref root pp = Some (VDict dpp) ->
  PyDict.lookup dpp k = Some c ->
  plug root (pp ++ [k]) x = plug root pp (VDict (PyDict.set dpp k x)).
Proof.
  induction pp as [|a pp IH]; intros root dpp k c x H Hk; simpl in *.
  - injection H as ->. now rewrite Hk.
  - destruct root as [s|l|d]; try discriminate.
    destruct (PyDict.lookup d a) as [c0|]; [|discriminate].
    now rewrite (IH _ _ _ _ _ H Hk).
Qed.

Lemma assign_cons d k k2 ks v :
  assign d (k :: k2 :: ks) v =
  (c <- coerce_dict (PyDict.get d (KStr k) VNone) ;;
   c' <- assign c (k2 :: ks) v ;;
   Ok (PyDict.set d (KStr k) (VDict c'))).
Proof. reflexivity. Qed.

Section Assign.

Variable v : value.

Lemma set__plain_step root node k1 ks parent :
  PyStr.int k1 = None ->
  set_ v root node (k1 :: ks) parent =
  (' (root1, node1, key1) <- set_except root node k1 parent ;;
   match ks with
   | [] => obj_setitem root1 node1 key1 v
   | _ =>
       child <- obj_get root1 node1 key1 ;;
       set_ v root1 child ks (Some (node1, key1))
   end).
Proof. intros H. cbn [set_]. unfold set_try. now rewrite H. Qed.

Lemma set_except_kept root q dq k1 parent :
  deref root q = Some (VDict dq) ->
  set_except root (Trav q) k1 parent = Ok (root, Trav q, KStr k1).
Proof.
  intros H. unfold set_except, obj_bool, __bool__, __len__, obj_raw.
  now rewrite (raw_deref _ _ _ H).
Qed.

Lemma set_except_replaced root node pp dpp k k1 :
  deref root pp = Some (VDict dpp) ->
  plain k ->
  (node = Plain SNone \/
   (exists s, node = Plain s /\ scalar_truthy s = false) \/
   (exists l, node = Trav (pp ++ [KStr k]) /\
              deref root (pp ++ [KStr k]) = Some (VList l))) ->
  set_except root node k1 (Some (Trav pp, KStr k)) =
    Ok (plug root pp (VDict (PyDict.set dpp (KStr k) (VDict []))),
        Trav (pp ++ [KStr k]), KStr k1).
Proof.
  intros Hpp [_ Hs] Hnode.
  assert (Hp1 : deref (plug root pp (VDict (PyDict.set dpp (KStr k) (VDict []))))
                      pp = Some (VDict (PyDict.set dpp (KStr k) (VDict []))))
    by (eapply deref_plug; eassumption).
  assert (Hfind : parent_find
            (plug root pp (VDict (PyDict.set dpp (KStr k) (VDict []))))
            (Some (Trav pp, KStr k)) = Ok (Trav (pp ++ [KStr k]))).
  { unfold parent_find, obj_find, _find. rewrite Hs.
    rewrite (find_get_dict _ _ _ _ _ Hp1). unfold PyDict.get.
    now rewrite lookup_set_same. }
  unfold set_except.
  destruct Hnode as [->|[(s & -> & Hf)|(l & -> & Hl)]].
  - cbn [obj_bool scalar_truthy bind negb].
    rewrite (parent_setitem_plug _ _ _ _ _ Hpp). cbn [bind].
    now rewrite Hfind.
  - cbn [obj_bool bind]. rewrite Hf. cbn [negb bind].
    rewrite (parent_setitem_plug _ _ _ _ _ Hpp). cbn [bind].
    now rewrite Hfind.
  - unfold obj_bool, __bool__, __len__, obj_raw.
    rewrite (raw_deref _ _ _ Hl). cbn [bind].
    destruct (negb (Z.of_nat (List.length l) =? 0)); cbn [negb bind is_dict];
      rewrite (parent_setitem_plug _ _ _ _ _ Hpp); cbn [bind];
      now rewrite Hfind.
Qed.

Lemma resume_assign ks : forall root pp dpp k dc k1,
  (forall root pp dpp k,
     ks <> [] -> plain k -> deref root pp = Some (VDict dpp) ->
     set_ v root (wrap_value (pp ++ [KStr k]) (PyDict.get dpp (KStr k) VNone))
          ks (Some (Trav pp, KStr k)) =
     (dc <- coerce_dict (PyDict.get dpp (KStr k) VNone) ;;
      dc' <- assign dc ks v ;;
      Ok (plug root pp (VDict (PyDict.set dpp (KStr k) (VDict dc')))))) ->
  plain k1 ->
  deref root pp = Some (VDict dpp) ->
  PyDict.lookup dpp (KStr k) = Some (VDict dc) ->
  resume v root (pp ++ [KStr k]) k1 ks =
  (dc' <- assign dc (k1 :: ks) v ;;
   Ok (plug root pp (VDict (PyDict.set dpp (KStr k) (VDict dc'))))).
Proof.
  intros root pp dpp k dc k1 IH Hk1 Hpp Hk.
  pose proof (deref_child _ _ _ _ _ Hpp Hk) as Hq.
  unfold resume. destruct ks as [|k2 ks].
  - unfold obj_setitem, __setitem__. rewrite (update_plug _ _ _ _ Hq).
    cbn [raw_setitem bind assign].
    now rewrite (plug_child _ _ _ _ _ _ Hpp Hk).
  - unfold obj_get, get. rewrite (raw_deref _ _ _ Hq). cbn [bind].
    rewrite (IH root (pp ++ [KStr k]) dc k1) by (auto; discriminate).
    rewrite assign_cons.
    destruct (coerce_dict (PyDict.get dc (KStr k1) VNone)) as [c|e];
      [|reflexivity].
    cbn [bind]. destruct (assign c (k2 :: ks) v) as [c'|e]; [|reflexivity].
    cbn [bind]. now rewrite (plug_child _ _ _ _ _ _ Hpp Hk).
Qed.

Lemma set__plain_below ks : forall root pp dpp k,
  Forall plain ks ->
  ks <> [] -> plain k -> deref root pp = Some (VDict dpp) ->
  set_ v root (wrap_value (pp ++ [KStr k]) (PyDict.get dpp (KStr k) VNone))
       ks (Some (Trav pp, KStr k)) =
  (dc <- coerce_dict (PyDict.get dpp (KStr k) VNone) ;;
   dc' <- assign dc ks v ;;
   Ok (plug root pp (VDict (PyDict.set dpp (KStr k) (VDict dc'))))).
Proof.
  induction ks as [|k1 ks IH]; intros root pp dpp k P Hne Hk Hpp;
    [congruence|].
  inversion P as [|? ? Hk1 P']; subst.
  rewrite (set__plain_step _ _ _ _ _ (proj1 Hk1)).
  set (root1 := plug root pp (VDict (PyDict.set dpp (KStr k) (VDict [])))).
  assert (Hp1 : deref root1 pp = Some (VDict (PyDict.set dpp (KStr k) (VDict []))))
    by (eapply deref_plug; eassumption).
  assert (Hreplaced :
    resume v root1 (pp ++ [KStr k]) k1 ks =
    (dc' <- assign [] (k1 :: ks) v ;;
     Ok (plug root pp (VDict (PyDict.set dpp (KStr k) (VDict dc')))))).
  { rewrite (resume_assign ks root1 pp _ k [] k1
               (fun r p d k0 Hne0 => IH r p d k0 P' Hne0) Hk1 Hp1
               (lookup_set_same _ _ _)).
    destruct (assign [] (k1 :: ks) v) as [c'|e]; [|reflexivity].
    cbn [bind]. unfold root1.
    now rewrite (plug_plug _ _ _ _ _ Hpp), set_set_same. }
  unfold PyDict.get.
  destruct (PyDict.lookup dpp (KStr k)) as [c|] eqn:Lk.
  - destruct c as [s|l|dc]; cbn [wrap_value coerce_dict].
    + destruct (scalar_truthy s) eqn:Ts.
      * unfold set_except. cbn [obj_bool bind]. rewrite Ts. reflexivity.
      * rewrite (set_except_replaced root (Plain s) pp dpp k k1 Hpp Hk)
          by (right; left; eauto).
        cbn [bind]. exact Hreplaced.
    + rewrite (set_except_replaced root _ pp dpp k k1 Hpp Hk)
        by (right; right; exists l; split;
            [reflexivity|eapply deref_child; eassumption]).
      cbn [bind]. exact Hreplaced.
    + rewrite (set_except_kept root _ dc k1 _ (deref_child _ _ _ _ _ Hpp Lk)).
      cbn [bind].
      exact (resume_assign ks root pp dpp k dc k1
               (fun r p d k0 Hne0 => IH r p d k0 P' Hne0) Hk1 Hpp Lk).
  - cbn [wrap_value coerce_dict scalar_truthy].
    rewrite (set_except_replaced root (Plain SNone) pp dpp k k1 Hpp Hk)
      by (left; reflexivity).
    cbn [bind]. exact Hreplaced.
Qed.

End Assign.

Lemma set_plain_assign (d : dict) (path : string) (v : value) :
  Forall plain (split_escaped path) ->
  _set (VDict d) (KStr path) v false =
  (d' <- assign d (split_escaped path) v ;; Ok (VDict d', VDict d')).
Proof.
  intros P. unfold _set.
  destruct (split_escaped path) as [|k1 ks] eqn:E;
    [now apply split_escaped_nonempty in E|].
  inversion P as [|? ? Hk1 P']; subst.
  rewrite (set__plain_step _ _ _ _ _ _ (proj1 Hk1)).
  rewrite (set_except_kept (VDict d) [] d k1 None eq_refl). cbn [bind].
  destruct ks as [|k2 ks].
  - reflexivity.
  - cbn [obj_get get raw deref bind].
    rewrite (set__plain_below v (k2 :: ks) (VDict d) [] d k1 P')
      by (auto; discriminate).
    rewrite assign_cons.
    destruct (coerce_dict (PyDict.get d (KStr k1) VNone)) as [c|e];
      [|reflexivity].
    cbn [bind]. destruct (assign c (k2 :: ks) v) as [c'|e]; reflexivity.
Qed.

Lemma assign_nest ks v : ks <> [] -> assign [] ks v = Ok (nest ks v).
Proof.
  induction ks as [|k ks IH]; intros Hne; [congruence|].
  destruct ks as [|k2 ks]; [reflexivity|].
  rewrite assign_cons. cbn [PyDict.get PyDict.lookup coerce_dict scalar_truthy bind].
  rewrite IH by discriminate. reflexivity.
Qed.

Lemma blocked_nil ks : blocked [] ks = false.
Proof. destruct ks as [|k [|k2 ks]]; reflexivity. Qed.

Lemma assign_blocked ks v : forall d,
  ks <> [] ->
  if blocked d ks then assign d ks v = Raise TypeError
  else exists d', assign d ks v = Ok d'.
Proof.
  induction ks as [|k ks IH]; intros d Hne; [congruence|].
  destruct ks as [|k2 ks]; [cbn; eauto|].
  rewrite assign_cons.
  change (blocked d (k :: k2 :: ks))
    with (match PyDict.get d (KStr k) VNone with
          | VScalar s => scalar_truthy s
          | VList _ => false
          | VDict c => blocked c (k2 :: ks)
          end).
  destruct (PyDict.get d (KStr k) VNone) as [s|l|c]; cbn [coerce_dict].
  - destruct (scalar_truthy s); [reflexivity|]. cbn [bind].
    rewrite assign_nest by discriminate. cbn [bind]. eauto.
  - cbn [bind]. rewrite assign_nest by discriminate. cbn [bind]. eauto.
  - cbn [bind]. specialize (IH c ltac:(discriminate)).
    destruct (blocked c (k2 :: ks)).
    + now rewrite IH.
    + destruct IH as (d' & ->). cbn [bind]. eauto.
Qed.



(** From an empty dict a write along plain segments always returns and
    builds one dict per segment; the read of the path finds the value, and
    so does the call operator for a value that is not [None]. *)
Theorem set_builds_from_empty (path : string) (v : value) :
  Forall plain (split_escaped path) ->
  _set (VDict []) (KStr path) v false =
    Ok (VDict (nest (split_escaped path) v),
        VDict (nest (split_escaped path) v)) /\
  _find (VDict (nest (split_escaped path) v)) [] (KStr path) =
    Ok (wrap_value (map KStr (split_escaped path)) v) /\
  (v <> VNone ->
   __call__ (VDict []) (Some (KStr path)) v =
     Ok (VDict (nest (split_escaped path) v), Self)).
Proof.
  intros P.
  assert (H : _set (VDict []) (KStr path) v false =
              Ok (VDict (nest (split_escaped path) v),
                  VDict (nest (split_escaped path) v))).
  { rewrite (set_plain_assign [] path v P).
    now rewrite assign_nest by apply split_escaped_nonempty. }
  split; [exact H|split].
  - now apply (set_then_find_plain (VDict []) path v).
  - intros Hv. unfold __call__.
    destruct v as [[| | |]| |]; try congruence; now rewrite H.
Qed.

Lemma set_builds_from_empty_witness :
  _set (VDict []) (KStr "a.b.c") (VInt 1) false =
    Ok (VDict [(KStr "a", VDict [(KStr "b", VDict [(KStr "c", VInt 1)])])],
        VDict [(KStr "a", VDict [(KStr "b", VDict [(KStr "c", VInt 1)])])]).
Proof.
  exact (proj1 (set_builds_from_empty "a.b.c" (VInt 1)
                  ltac:(repeat constructor))).
Defined.

(** Along plain segments [_set] on a view over a dict is [assign]: a dict
    on the way is entered, a list or a falsy scalar is replaced by a new
    dict, a truthy scalar raises [TypeError], and the last segment is
    assigned. *)
Theorem set_plain_is_assign (d : dict) (path : string) (v : value) :
  Forall plain (split_escaped path) ->
  _set (VDict d) (KStr path) v false =
  (d' <- assign d (split_escaped path) v ;; Ok (VDict d', VDict d')).
Proof. exact (set_plain_assign d path v). Qed.

Lemma set_plain_is_assign_witness :
  _set (VDict [(KStr "a", VList [VInt 1; VInt 2])]) (KStr "a.b") (VInt 1) false =
    Ok (VDict [(KStr "a", VDict [(KStr "b", VInt 1)])],
        VDict [(KStr "a", VDict [(KStr "b", VInt 1)])]).
Proof.
  exact (set_plain_is_assign [(KStr "a", VList [VInt 1; VInt 2])] "a.b" (VInt 1)
           ltac:(repeat constructor)).
Defined.

(** * Items of a view over a dict *)

Lemma key_eqb_sym a b : key_eqb a b = key_eqb b a.
Proof.
  destruct (key_eqb a b) eqn:E.
  - apply key_eqb_eq in E. subst. now rewrite key_eqb_refl.
  - destruct (key_eqb b a) eqn:E'; [|reflexivity].
    apply key_eqb_eq in E'. subst. now rewrite key_eqb_refl in E.
Qed.

Lemma lookup_set_other d k v k' :
  key_eqb k k' = false ->
  PyDict.lookup (PyDict.set d k v) k' = PyDict.lookup d k'.
Proof.
  intros H. induction d as [|[a x] d IH]; simpl.
  - rewrite H. reflexivity.
  - destruct (key_eqb a k) eqn:E; simpl.
    + apply key_eqb_eq in E. subst a. now rewrite H.
    + destruct (key_eqb a k'); [reflexivity|exact IH].
Qed.

Lemma lookup_del_other d k d' k' :
  key_eqb k k' = false ->
  PyDict.del d k = Some d' ->
  PyDict.lookup d' k' = PyDict.lookup d k'.
Proof.
  intros H. revert d'. induction d as [|[a x] d IH]; intros d' D; simpl in D.
  - discriminate.
  - destruct (key_eqb a k) eqn:E.
    + injection D as <-. apply key_eqb_eq in E. subst a. simpl. now rewrite H.
    + destruct (PyDict.del d k) as [d0|]; [|discriminate].
      injection D as <-. simpl.
      destruct (key_eqb a k'); [reflexivity|now apply IH].
Qed.

Lemma lookup_not_in_keys d k :
  ~ In k (PyDict.keys d) -> PyDict.lookup d k = None.
Proof.
  induction d as [|[a x] d IH]; simpl; [reflexivity|]. intros H.
  destruct (key_eqb a k) eqn:E.
  - apply key_eqb_eq in E. subst a. tauto.
  - apply IH. tauto.
Qed.

Lemma del_present d k :
  NoDup (PyDict.keys d) ->
  PyDict.lookup d k <> None ->
  exists d', PyDict.del d k = Some d' /\ PyDict.lookup d' k = None.
Proof.
  induction d as [|[a x] d IH]; simpl; intros N H; [congruence|].
  inversion N as [|? ? Hnin N']; subst.
  destruct (key_eqb a k) eqn:E.
  - apply key_eqb_eq in E. subst a. exists d. split; [reflexivity|].
    now apply lookup_not_in_keys.
  - destruct (IH N' H) as (d' & -> & L). eexists. split; [reflexivity|].
    simpl. now rewrite E.
Qed.

Lemma del_missing d k : PyDict.lookup d k = None -> PyDict.del d k = None.
Proof.
  induction d as [|[a x] d IH]; simpl; [reflexivity|].
  destruct (key_eqb a k); [discriminate|]. intros H. now rewrite IH.
Qed.

Lemma setitem_get_dict (root : value) (p : loc) (d : dict) (k : key)
    (v : value) :
  deref root p = Some (VDict d) ->
  exists root',
    __setitem__ root p k v = Ok root' /\
    get root' p k = Ok (wrap_value (p ++ [k]) v) /\
    (forall k', key_eqb k k' = false ->
       exists d', deref root' p = Some (VDict d') /\
                  PyDict.lookup d' k' = PyDict.lookup d k').
Proof.
  intros H. exists (plug root p (VDict (PyDict.set d k v))).
  assert (H' : deref (plug root p (VDict (PyDict.set d k v))) p =
               Some (VDict (PyDict.set d k v)))
    by (eapply deref_plug; eassumption).
  split; [|split].
  - unfold __setitem__. now rewrite (update_plug _ _ _ _ H).
  - apply (get_child _ _ _ _ _ H'). apply lookup_set_same.
  - intros k' Hk. eexists. split; [exact H'|]. now apply lookup_set_other.
Qed.



(** Deleting a key of a dict view: a present key is gone afterwards and
    the other keys keep their values; a missing key is a [KeyError] and
    nothing changes. *)
Theorem delitem_then_get (root : value) (p : loc) (d : dict) (k : key) :
  deref root p = Some (VDict d) ->
  NoDup (PyDict.keys d) ->
  match PyDict.lookup d k with
  | Some _ =>
      exists root' d',
        __delitem__ root p k = Ok root' /\
        deref root' p = Some (VDict d') /\
        get root' p k = Ok (Plain SNone) /\
        (forall k', key_eqb k k' = false ->
           PyDict.lookup d' k' = PyDict.lookup d k')
  | None => __delitem__ root p k = Raise KeyError
  end.
Proof.
  intros H N. unfold __delitem__. rewrite (update_plug _ _ _ _ H).
  cbn [raw_delitem].
  destruct (PyDict.lookup d k) as [x|] eqn:L.
  - destruct (del_present d k N) as (d' & D & L'); [congruence|].
    rewrite D. cbn [bind].
    assert (H' : deref (plug root p (VDict d')) p = Some (VDict d'))
      by (eapply deref_plug; eassumption).
    exists (plug root p (VDict d')), d'. repeat split; try assumption.
    + unfold get. rewrite (raw_deref _ _ _ H'). cbn [bind].
      unfold PyDict.get. now rewrite L'.
    + intros k' Hk. eapply lookup_del_other; eassumption.
  - now rewrite (del_missing _ _ L).
Qed.

Lemma delitem_then_get_witness :
  __delitem__ (VDict [(KStr "a", VInt 1)]) [] (KStr "b") = Raise KeyError.
Proof.
  exact (delitem_then_get (VDict [(KStr "a", VInt 1)]) [] [(KStr "a", VInt 1)]
           (KStr "b") eq_refl ltac:(repeat constructor; simpl; tauto)).
Defined.

(** [find_get] walks the dicts along its segments. *)
Lemma find_get_walk ks : forall root q c k ks',
  deref root (q ++ map KStr ks) = Some c ->
  traversable c = true ->
  find_get root q (ks ++ k :: ks') = find_get root (q ++ map KStr ks) (k :: ks').
Proof.
  induction ks as [|k1 ks IH]; intros root q c k ks' H Hc.
  - cbn [map app]. now rewrite app_nil_r.
  - cbn [map] in *.
    assert (Hq1 : q ++ KStr k1 :: map KStr ks = (q ++ [KStr k1]) ++ map KStr ks)
      by now rewrite <- app_assoc.
    rewrite Hq1 in *.
    rewrite <- (IH root (q ++ [KStr k1]) c k ks' H Hc).
    rewrite deref_app in H.
    destruct (deref root (q ++ [KStr k1])) as [c1|] eqn:D1; [|discriminate].
    assert (T1 : traversable c1 = true).
    { destruct ks as [|k2 ks].
      - simpl in H. now injection H as ->.
      - simpl in H. destruct c1; try discriminate. reflexivity. }
    rewrite deref_app in D1.
    destruct (deref root q) as [cq|] eqn:Dq; [|discriminate].
    destruct cq as [s|l|d]; try discriminate.
    simpl in D1. destruct (PyDict.lookup d (KStr k1)) as [c1'|] eqn:L;
      [|discriminate].
    injection D1 as ->.
    change ((k1 :: ks) ++ k :: ks') with (k1 :: (ks ++ k :: ks')).
    rewrite (find_get_dict _ _ _ _ _ Dq).
    unfold PyDict.get. rewrite L.
    destruct (ks ++ k :: ks') eqn:E; [now destruct ks|].
    now destruct c1.
Qed.

(** The Traverser a read returns sits at the segments of the path. *)
Lemma find_get_location ks : forall root q o,
  find_get root q ks = Ok o ->
  forall p, o = Trav p ->
  p = q ++ map KStr ks /\ exists c, deref root p = Some c /\ traversable c = true.
Proof.
  induction ks as [|k ks IH]; intros root q o H p ->; [discriminate|].
  cbn [find_get] in H. unfold get in H.
  destruct (raw root q) as [cq|e] eqn:R; [|discriminate]. cbn [bind] in H.
  assert (Dq : deref root q = Some cq).
  { unfold raw in R. destruct (deref root q); [now injection R as ->|discriminate]. }
  destruct cq as [s|l|d]; try discriminate.
  cbn [is_list bind] in H.
  unfold PyDict.get in H.
  destruct (PyDict.lookup d (KStr k)) as [c|] eqn:L.
  - destruct c as [s|l|d']; cbn [wrap_value] in H.
    + destruct ks; discriminate.
    + destruct ks as [|k2 ks].
      * injection H as <-. split; [reflexivity|].
        eexists. split; [eapply deref_child; eassumption|reflexivity].
      * destruct (IH root _ _ H p eq_refl) as (-> & Hc).
        split; [simpl; now rewrite <- app_assoc|exact Hc].
    + destruct ks as [|k2 ks].
      * injection H as <-. split; [reflexivity|].
        eexists. split; [eapply deref_child; eassumption|reflexivity].
      * destruct (IH root _ _ H p eq_refl) as (-> & Hc).
        split; [simpl; now rewrite <- app_assoc|exact Hc].
  - cbn [wrap_value] in H. destruct ks; discriminate.
Qed.



(** * Laws of the filter *)

Section FilterLaws.

Variable f : Filter.t.

Lemma scalar_eq_refl s : scalar_eq s s = true.
Proof.
  destruct s as [|b|z|s]; simpl; auto.
  - now destruct b.
  - apply Z.eqb_refl.
  - apply String.eqb_refl.
Qed.

Lemma scalar_eq_sym a b : scalar_eq a b = scalar_eq b a.
Proof.
  destruct a as [|x|x|x], b as [|y|y|y]; simpl; auto.
  - now destruct x, y.
  - apply Z.eqb_sym.
  - apply Z.eqb_sym.
  - apply Z.eqb_sym.
  - apply String.eqb_sym.
Qed.

Lemma keys_eqb_refl ks : keys_eqb ks ks = true.
Proof. now apply keys_eqb_eq. Qed.

Lemma keys_eqb_sym a b : keys_eqb a b = keys_eqb b a.
Proof.
  destruct (keys_eqb a b) eqn:E.
  - apply keys_eqb_eq in E. subst. now rewrite keys_eqb_refl.
  - destruct (keys_eqb b a) eqn:E'; [|reflexivity].
    apply keys_eqb_eq in E'. subst. now rewrite keys_eqb_refl in E.
Qed.

(** A value equals itself for any filter. *)
Theorem are_equal_reflexive : forall v,
  str_keyed v = true -> Filter.are_equal f v v = Ok true.
Proof.
  induction v as [s|l IH|d IH] using value_ind; intros S.
  - cbn. now rewrite scalar_eq_refl.
  - rewrite are_equal_list, Nat.eqb_refl. cbn [negb].
    simpl in S. induction IH as [|x l Hx _ IHl]; [reflexivity|].
    simpl in S. apply andb_prop in S as [S1 S2].
    cbn [each_item]. rewrite (Hx S1). cbn [bind]. now apply IHl.
  - rewrite are_equal_dict.
    destruct (sorted_str _ (keys_str_keyed _ S)) as (lk & El & _).
    rewrite El. cbn [bind]. rewrite keys_eqb_refl. cbn [negb].
    apply each_key_true. apply Forall_forall. intros k Hk.
    apply (select_subset f) in Hk. apply (sorted_in _ _ El) in Hk.
    destruct (lookup_in_keys _ _ Hk) as (k' & x & L & Hin).
    exists x, x. repeat split; try assumption.
    rewrite Forall_forall in IH.
    apply (IH (k', x) Hin). eapply item_str_keyed; eassumption.
Qed.

Lemma each_item_sym : forall ls rs,
  List.length ls = List.length rs ->
  Forall (fun x => forall r, str_keyed x = true -> str_keyed r = true ->
                   Filter.are_equal f x r = Filter.are_equal f r x) ls ->
  forallb str_keyed ls = true -> forallb str_keyed rs = true ->
  each_item f ls rs = each_item f rs ls.
Proof.
  induction ls as [|x ls IH]; intros [|r rs] E H Sl Sr; try discriminate;
    [reflexivity|].
  inversion H as [|? ? Hx Hls]; subst.
  simpl in E, Sl, Sr. apply andb_prop in Sl as [Sx Sl].
  apply andb_prop in Sr as [Srr Sr].
  cbn [each_item]. rewrite (Hx r Sx Srr).
  destruct (Filter.are_equal f r x) as [[|]|e]; cbn [bind]; auto.
Qed.

Lemma each_key_sym dl dr ks :
  (forall k, In k ks -> In k (PyDict.keys dl) /\ In k (PyDict.keys dr)) ->
  Forall (fun kv => forall r, str_keyed (snd kv) = true -> str_keyed r = true ->
            Filter.are_equal f (snd kv) r = Filter.are_equal f r (snd kv)) dl ->
  str_keyed (VDict dl) = true -> str_keyed (VDict dr) = true ->
  each_key f dl dr ks = each_key f dr dl ks.
Proof.
  intros Hks IH Sl Sr. induction ks as [|k ks IHks]; [reflexivity|].
  cbn [each_key]. rewrite !left_at_lookup.
  destruct (Hks k (or_introl eq_refl)) as [Hl Hr].
  destruct (lookup_in_keys _ _ Hl) as (kl & l & -> & Hinl).
  destruct (lookup_in_keys _ _ Hr) as (kr & r & -> & Hinr).
  rewrite Forall_forall in IH.
  pose proof (IH (kl, l) Hinl r (item_str_keyed _ _ _ Sl Hinl)
                (item_str_keyed _ _ _ Sr Hinr)) as Hlr.
  cbn [snd] in Hlr. rewrite Hlr.
  destruct (Filter.are_equal f r l) as [[|]|e]; cbn [bind]; auto.
  apply IHks. intros k' Hk'. apply Hks. now right.
Qed.

(** The comparison does not depend on the side a value is on. *)
Theorem are_equal_symmetric : forall a b,
  str_keyed a = true -> str_keyed b = true ->
  Filter.are_equal f a b = Filter.are_equal f b a.
Proof.
  induction a as [s|ls IH|dl IH] using value_ind; intros b Sa Sb.
  - destruct b as [t|rs|dr]; [|reflexivity|reflexivity].
    cbn [Filter.are_equal py_eq]. f_equal. apply scalar_eq_sym.
  - destruct b as [t|rs|dr]; try reflexivity.
    rewrite !are_equal_list, (Nat.eqb_sym (List.length rs)).
    destruct (List.length ls =? List.length rs)%nat eqn:E; [|reflexivity].
    apply Nat.eqb_eq in E. cbn [negb].
    apply each_item_sym; auto.
  - destruct b as [t|rs|dr]; try reflexivity.
    rewrite !are_equal_dict.
    destruct (sorted_str _ (keys_str_keyed _ Sa)) as (lk & El & _).
    destruct (sorted_str _ (keys_str_keyed _ Sb)) as (rk & Er & _).
    rewrite El, Er. cbn [bind].
    rewrite (keys_eqb_sym (Filter.select f rk)).
    destruct (keys_eqb (Filter.select f lk) (Filter.select f rk)) eqn:E;
      [|reflexivity].
    cbn [negb]. apply keys_eqb_eq in E. rewrite <- E.
    apply each_key_sym; auto.
    + intros k Hk. split.
      * apply (sorted_in _ _ El). now apply (select_subset f).
      * apply (sorted_in _ _ Er). apply (select_subset f). now rewrite <- E.
Qed.

Lemma keys_set_present d k x :
  PyDict.lookup d k <> None -> PyDict.keys (PyDict.set d k x) = PyDict.keys d.
Proof.
  induction d as [|[a y] d IH]; simpl; [congruence|].
  destruct (key_eqb a k); simpl; [reflexivity|].
  intros H. now rewrite IH.
Qed.

Lemma retained_not_blacklisted k k' :
  PyDict.mem k (Filter.blacklist f) = true ->
  retained f k' = true -> key_eqb k k' = false.
Proof.
  intros B R. destruct (key_eqb k k') eqn:E; [|reflexivity].
  apply key_eqb_eq in E. subst k'. unfold retained in R.
  now rewrite B in R.
Qed.

Lemma each_key_ignores dl dr k x y ks :
  (forall k', In k' ks -> key_eqb k k' = false) ->
  each_key f (PyDict.set dl k x) (PyDict.set dr k y) ks = each_key f dl dr ks.
Proof.
  intros H. induction ks as [|k' ks IH]; [reflexivity|].
  cbn [each_key]. rewrite !left_at_lookup.
  rewrite !lookup_set_other by (apply H; now left).
  rewrite IH by (intros k0 Hk0; apply H; now right). reflexivity.
Qed.

(** The values two dicts hold under a blacklisted key do not count. *)
Theorem are_equal_ignores_blacklisted (dl dr : dict) (k : key) (x y : value) :
  PyDict.mem k (Filter.blacklist f) = true ->
  PyDict.lookup dl k <> None ->
  PyDict.lookup dr k <> None ->
  Filter.are_equal f (VDict (PyDict.set dl k x)) (VDict (PyDict.set dr k y)) =
  Filter.are_equal f (VDict dl) (VDict dr).
Proof.
  intros B Hl Hr. rewrite !are_equal_dict.
  rewrite !keys_set_present by assumption.
  destruct (sorted (PyDict.keys dl)) as [lk|]; [|reflexivity].
  destruct (sorted (PyDict.keys dr)) as [rk|]; [|reflexivity].
  cbn [bind].
  destruct (negb _); [reflexivity|].
  apply each_key_ignores. intros k' Hk'.
  rewrite select_retained in Hk'. apply filter_In in Hk' as [_ R].
  now apply retained_not_blacklisted.
Qed.

Lemma filter_all {A} (P : A -> bool) l :
  forallb P l = true -> filter P l = l.
Proof.
  induction l as [|a l IH]; simpl; [reflexivity|]. intros H.
  apply andb_prop in H as [-> H]. now rewrite IH.
Qed.

Lemma prune_dict_retained d :
  Filter.prune f (VDict d) =
  VDict (map (fun kv => (fst kv, Filter.prune f (snd kv)))
             (filter (fun kv => retained f (fst kv)) d)).
Proof.
  rewrite prune_dict. f_equal.
  apply prune_items_retained. intros k x. apply mem_keys.
Qed.

Lemma prune_all_retained : forall v,
  all_keys (retained f) (Filter.prune f v) = true.
Proof.
  induction v as [s|l IH|d IH] using value_ind.
  - reflexivity.
  - cbn [Filter.prune all_keys]. rewrite forallb_forall.
    intros x Hx. apply in_map_iff in Hx as (y & <- & Hy).
    rewrite Forall_forall in IH. now apply IH.
  - rewrite prune_dict_retained. cbn [all_keys]. rewrite forallb_forall.
    intros [k x] Hx. apply in_map_iff in Hx as ([k0 y] & E & Hy).
    cbn [fst snd] in E. injection E as <- <-.
    apply filter_In in Hy as [Hy R]. cbn [fst] in R. rewrite R.
    rewrite Forall_forall in IH. apply (IH (k0, y) Hy).
Qed.

Lemma prune_fixed_iff : forall v,
  Filter.prune f v = v <-> all_keys (retained f) v = true.
Proof.
  intros v. split.
  - intros E. rewrite <- E. apply prune_all_retained.
  - induction v as [s|l IH|d IH] using value_ind; intros A.
    + reflexivity.
    + cbn [Filter.prune]. f_equal. cbn [all_keys] in A.
      induction IH as [|x l Hx _ IHl]; [reflexivity|].
      simpl in A. apply andb_prop in A as [A1 A2].
      simpl. now rewrite (Hx A1), (IHl A2).
    + rewrite prune_dict_retained. f_equal. cbn [all_keys] in A.
      rewrite filter_all.
      * induction IH as [|[k x] d Hx _ IHd]; [reflexivity|].
        simpl in A. apply andb_prop in A as [A1 A2].
        apply andb_prop in A1 as [_ A1].
        simpl. cbn [snd] in Hx. now rewrite (Hx A1), (IHd A2).
      * rewrite forallb_forall in *. intros [k x] Hin.
        specialize (A _ Hin). cbn [fst]. now apply andb_prop in A.
Qed.

(** After [prune] every key left in the tree is a retained key. *)
Theorem prune_leaves_retained_keys (v : value) :
  all_keys (retained f) (Filter.prune f v) = true.
Proof. exact (prune_all_retained v). Qed.

(** [prune] changes nothing exactly when every key is retained. *)
Theorem prune_unchanged_iff (v : value) :
  Filter.prune f v = v <-> all_keys (retained f) v = true.
Proof. exact (prune_fixed_iff v). Qed.

(** Pruning twice is pruning once. *)
Theorem prune_idempotent (v : value) :
  Filter.prune f (Filter.prune f v) = Filter.prune f v.
Proof. apply prune_fixed_iff, prune_all_retained. Qed.

End FilterLaws.

(** A filter without lists prunes nothing. *)
Theorem prune_without_lists v :
  Filter.prune (Filter.__init__ Filter.NoKeys Filter.NoKeys) v = v.
Proof.
  apply prune_fixed_iff.
  induction v as [s|l IH|d IH] using value_ind; cbn [all_keys].
  - reflexivity.
  - rewrite forallb_forall. now rewrite Forall_forall in IH.
  - rewrite forallb_forall. rewrite Forall_forall in IH.
    intros [k x] Hin. specialize (IH (k, x) Hin). cbn [snd] in IH.
    now rewrite IH.
Qed.

Lemma are_equal_reflexive_witness :
  Filter.are_equal (Filter.__init__ Filter.NoKeys (Filter.OneKey (KStr "x")))
    (VDict [(KStr "x", VList [VInt 1])]) (VDict [(KStr "x", VList [VInt 1])])
  = Ok true.
Proof. apply are_equal_reflexive. reflexivity. Defined.

Lemma are_equal_symmetric_witness :
  Filter.are_equal (Filter.__init__ (Filter.OneKey (KStr "id")) Filter.NoKeys)
    (VDict [(KStr "id", VInt 1)]) (VList []) =
  Filter.are_equal (Filter.__init__ (Filter.OneKey (KStr "id")) Filter.NoKeys)
    (VList []) (VDict [(KStr "id", VInt 1)]).
Proof. apply are_equal_symmetric; reflexivity. Defined.

Lemma are_equal_ignores_blacklisted_witness :
  Filter.are_equal (Filter.__init__ (Filter.OneKey (KStr "id")) Filter.NoKeys)
    (VDict [(KStr "id", VInt 1); (KStr "x", VInt 2)])
    (VDict [(KStr "id", VInt 9); (KStr "x", VInt 2)]) =
  Filter.are_equal (Filter.__init__ (Filter.OneKey (KStr "id")) Filter.NoKeys)
    (VDict [(KStr "id", VNone); (KStr "x", VInt 2)])
    (VDict [(KStr "id", VNone); (KStr "x", VInt 2)]).
Proof.
  apply (are_equal_ignores_blacklisted
           (Filter.__init__ (Filter.OneKey (KStr "id")) Filter.NoKeys)
           [(KStr "id", VNone); (KStr "x", VInt 2)]
           [(KStr "id", VNone); (KStr "x", VInt 2)]
           (KStr "id") (VInt 1) (VInt 9)); [reflexivity|discriminate|discriminate].
Defined.

Lemma are_equal_total_witness :
  exists b,
    Filter.are_equal (Filter.__init__ Filter.NoKeys Filter.NoKeys)
      (VDict [(KStr "a", VInt 1)]) (VDict [(KStr "b", VInt 1)]) = Ok b.
Proof. apply are_equal_total; reflexivity. Defined.

Section KeyOrder.

Lemma ascii_compare_refl c : Ascii.compare c c = Eq.
Proof. unfold Ascii.compare. apply N.compare_refl. Qed.

Lemma ascii_compare_lt_trans a b c :
  Ascii.compare a b = Lt -> Ascii.compare b c = Lt -> Ascii.compare a c = Lt.
Proof.
  unfold Ascii.compare. rewrite !N.compare_lt_iff. apply N.lt_trans.
Qed.

Lemma string_compare_lt_trans a : forall b c,
  String.compare a b = Lt -> String.compare b c = Lt -> String.compare a c = Lt.
Proof.
  induction a as [|x a IH]; intros [|y b] [|z c]; simpl; try discriminate; auto.
  destruct (Ascii.compare x y) eqn:Exy; try discriminate;
    destruct (Ascii.compare y z) eqn:Eyz; try discriminate; intros H1 H2.
  - apply Ascii.compare_eq_iff in Exy, Eyz. subst.
    rewrite ascii_compare_refl. eauto.
  - apply Ascii.compare_eq_iff in Exy. subst. now rewrite Eyz.
  - apply Ascii.compare_eq_iff in Eyz. subst. now rewrite Exy.
  - now rewrite (ascii_compare_lt_trans _ _ _ Exy Eyz).
Qed.

Lemma string_ltb_lt a b : String.ltb a b = true <-> String.compare a b = Lt.
Proof. unfold String.ltb. destruct (String.compare a b); intuition congruence. Qed.

Lemma string_lt_le_trans k a x :
  String.ltb k a = true -> String.ltb x a = false -> String.ltb k x = true.
Proof.
  rewrite !string_ltb_lt. intros H1 H2.
  destruct (String.compare x a) eqn:E.
  - apply String.compare_eq_iff in E. now subst.
  - exfalso. apply string_ltb_lt in E. congruence.
  - apply (string_compare_lt_trans k a x H1).
    rewrite String.compare_antisym, E. reflexivity.
Qed.

Lemma string_ltb_asym a b : String.ltb a b = true -> String.ltb b a = false.
Proof.
  unfold String.ltb. rewrite (String.compare_antisym b a).
  now destruct (String.compare a b).
Qed.

Lemma key_lt_asym a b : key_lt a b = Ok true -> key_le a b.
Proof.
  unfold key_le. destruct a as [s|x], b as [t|y]; simpl; try discriminate;
    intros [= H]; f_equal.
  - now apply string_ltb_asym.
  - apply Z.ltb_lt in H. apply Z.ltb_ge. lia.
Qed.

Lemma key_lt_le_trans k a x :
  key_lt k a = Ok true -> key_le a x -> key_lt k x = Ok true.
Proof.
  unfold key_le. destruct k as [s|n], a as [t|m], x as [u|p]; simpl;
    try discriminate; intros [= H1] [= H2]; f_equal.
  - eapply string_lt_le_trans; eassumption.
  - apply Z.ltb_lt in H1. apply Z.ltb_ge in H2. apply Z.ltb_lt. lia.
Qed.

Lemma insert_key_sorted k : forall s r,
  StronglySorted key_le s -> insert_key k s = Ok r -> StronglySorted key_le r.
Proof.
  induction s as [|a s IH]; intros r S H; simpl in H.
  - injection H as <-. repeat constructor.
  - inversion S as [|? ? S' Ha]; subst.
    destruct (key_lt k a) as [[|]|] eqn:E; simpl in H; try discriminate.
    + injection H as <-. constructor; [assumption|].
      constructor; [now apply key_lt_asym|].
      rewrite Forall_forall in *. intros x Hx.
      apply key_lt_asym. eapply key_lt_le_trans; eauto.
    + destruct (insert_key k s) as [r'|] eqn:I; [|discriminate].
      injection H as <-. constructor; [eapply IH; eauto|].
      rewrite Forall_forall in *. intros x Hx.
      apply (insert_key_in _ _ _ I) in Hx as [->|Hx]; [exact E|auto].
Qed.

Lemma sorted_sorted ks : forall r,
  sorted ks = Ok r -> StronglySorted key_le r.
Proof.
  induction ks as [|k ks IH]; intros r H; simpl in H.
  - injection H as <-. constructor.
  - destruct (sorted ks) as [s|] eqn:E; [|discriminate]. simpl in H.
    eapply insert_key_sorted; eauto.
Qed.

Variable P : key -> bool.

Lemma insert_key_filter k : forall s r,
  StronglySorted key_le s ->
  insert_key k s = Ok r ->
  if P k then insert_key k (filter P s) = Ok (filter P r)
  else filter P r = filter P s.
Proof.
  induction s as [|a s IH]; intros r S H; simpl in H.
  - injection H as <-. simpl. now destruct (P k).
  - inversion S as [|? ? S' Ha]; subst.
    destruct (key_lt k a) as [[|]|] eqn:E; simpl in H; try discriminate.
    + injection H as <-. cbn [filter]. destruct (P k) eqn:Pk; [|reflexivity].
      destruct (P a) eqn:Pa.
      * simpl. now rewrite E.
      * destruct (filter P s) as [|x t] eqn:F; [reflexivity|].
        assert (Hx : In x s).
        { assert (Hin : In x (filter P s)) by (rewrite F; now left).
          now apply filter_In in Hin. }
        rewrite Forall_forall in Ha.
        simpl. now rewrite (key_lt_le_trans _ _ _ E (Ha x Hx)).
    + destruct (insert_key k s) as [r'|] eqn:I; [|discriminate].
      injection H as <-. specialize (IH r' S' eq_refl).
      cbn [filter]. destruct (P k) eqn:Pk.
      * destruct (P a); [|exact IH].
        simpl. rewrite E. cbn [bind]. now rewrite IH.
      * now rewrite IH.
Qed.

Lemma sorted_filter ks : forall s,
  sorted ks = Ok s -> sorted (filter P ks) = Ok (filter P s).
Proof.
  induction ks as [|k ks IH]; intros s H; simpl in H.
  - now injection H as <-.
  - destruct (sorted ks) as [s'|] eqn:E; [|discriminate]. simpl in H.
    pose proof (insert_key_filter k s' s (sorted_sorted _ _ E) H) as F.
    simpl. destruct (P k).
    + simpl. now rewrite (IH s' eq_refl).
    + rewrite F. now apply IH.
Qed.

End KeyOrder.

Section PruneEqual.

Variable f : Filter.t.

Lemma keys_pruned d :
  PyDict.keys (map (fun kv => (fst kv, Filter.prune f (snd kv)))
                   (filter (fun kv => retained f (fst kv)) d)) =
  filter (retained f) (PyDict.keys d).
Proof.
  unfold PyDict.keys. induction d as [|[k x] d IH]; simpl; [reflexivity|].
  destruct (retained f k); simpl; now rewrite IH.
Qed.

Lemma lookup_pruned d k :
  retained f k = true ->
  PyDict.lookup (map (fun kv => (fst kv, Filter.prune f (snd kv)))
                     (filter (fun kv => retained f (fst kv)) d)) k =
  option_map (Filter.prune f) (PyDict.lookup d k).
Proof.
  intros R. induction d as [|[a x] d IH]; simpl; [reflexivity|].
  destruct (key_eqb a k) eqn:E.
  - apply key_eqb_eq in E. subst a. rewrite R. simpl.
    now rewrite key_eqb_refl.
  - destruct (retained f a); simpl; [rewrite E|]; exact IH.
Qed.

Lemma filter_idem {A} (Q : A -> bool) l : filter Q (filter Q l) = filter Q l.
Proof.
  induction l as [|a l IH]; simpl; [reflexivity|].
  destruct (Q a) eqn:E; simpl; [rewrite E|]; now rewrite IH.
Qed.

(** A value and what [prune] leaves of it are equal for the filter. *)
Theorem pruned_is_equal : forall v,
  str_keyed v = true ->
  Filter.are_equal f v (Filter.prune f v) = Ok true.
Proof.
  induction v as [s|l IH|d IH] using value_ind; intros S.
  - cbn. now rewrite scalar_eq_refl.
  - cbn [Filter.prune]. rewrite are_equal_list, length_map, Nat.eqb_refl.
    cbn [negb]. simpl in S.
    induction IH as [|x l Hx _ IHl]; [reflexivity|].
    simpl in S. apply andb_prop in S as [S1 S2].
    cbn [map each_item]. rewrite (Hx S1). cbn [bind]. now apply IHl.
  - rewrite prune_dict_retained, are_equal_dict, keys_pruned.
    destruct (sorted_str _ (keys_str_keyed _ S)) as (lk & El & _).
    rewrite El, (sorted_filter (retained f) _ _ El). cbn [bind].
    rewrite !select_retained, filter_idem, keys_eqb_refl. cbn [negb].
    apply each_key_true. apply Forall_forall. intros k Hk.
    apply filter_In in Hk as [Hk R]. apply (sorted_in _ _ El) in Hk.
    destruct (lookup_in_keys _ _ Hk) as (k' & x & L & Hin).
    exists x, (Filter.prune f x). split; [exact L|split].
    + now rewrite (lookup_pruned d k R), L.
    + rewrite Forall_forall in IH.
      apply (IH (k', x) Hin). eapply item_str_keyed; eassumption.
Qed.

End PruneEqual.

Lemma pruned_is_equal_witness :
  Filter.are_equal (Filter.__init__ (Filter.OneKey (KStr "id")) Filter.NoKeys)
    (VDict [(KStr "id", VInt 1); (KStr "y", VInt 2)])
    (VDict [(KStr "y", VInt 2)]) = Ok true.
Proof.
  exact (pruned_is_equal
           (Filter.__init__ (Filter.OneKey (KStr "id")) Filter.NoKeys)
           (VDict [(KStr "id", VInt 1); (KStr "y", VInt 2)]) eq_refl).
Defined.

(** ** The comparison against the specification *)

Lemma insert_key_perm k : forall s r,
  insert_key k s = Ok r -> Permutation (k :: s) r.
Proof.
  induction s as [|a s IH]; intros r H; simpl in H.
  - now injection H as <-.
  - destruct (key_lt k a) as [[|]|]; simpl in H; try discriminate.
    + now injection H as <-.
    + destruct (insert_key k s) as [r'|]; [|discriminate].
      injection H as <-. rewrite perm_swap. constructor. now apply IH.
Qed.

Lemma sorted_perm ks : forall r, sorted ks = Ok r -> Permutation ks r.
Proof.
  induction ks as [|k ks IH]; intros r H; simpl in H.
  - now injection H as <-.
  - destruct (sorted ks) as [s|]; [|discriminate]. simpl in H.
    rewrite <- (insert_key_perm _ _ _ H). constructor. now apply IH.
Qed.

Lemma key_le_antisym a b : key_le a b -> key_le b a -> a = b.
Proof.
  unfold key_le. destruct a as [s|x], b as [t|y]; simpl; try discriminate;
    intros [= H1] [= H2]; f_equal.
  - unfold String.ltb in *. rewrite String.compare_antisym in H1.
    destruct (String.compare s t) eqn:E; try discriminate.
    now apply String.compare_eq_iff.
  - apply Z.ltb_ge in H1, H2. lia.
Qed.

Lemma insert_key_first k : forall s,
  Forall (key_le k) s -> insert_key k s = Ok (k :: s).
Proof.
  induction s as [|y s IH]; intros F; [reflexivity|].
  inversion F as [|? ? Hy F']; subst. simpl.
  destruct (key_lt k y) as [[|]|] eqn:E.
  - reflexivity.
  - assert (k = y) by (apply key_le_antisym; assumption). subst y.
    cbn [bind]. now rewrite (IH F').
  - exfalso. unfold key_le in Hy.
    destruct k, y; simpl in *; discriminate.
Qed.

Lemma insert_key_middle k s2 : forall s1,
  StronglySorted key_le (s1 ++ k :: s2) ->
  insert_key k (s1 ++ s2) = Ok (s1 ++ k :: s2).
Proof.
  induction s1 as [|x s1 IH]; intros S; simpl in *.
  - inversion S; subst. now apply insert_key_first.
  - inversion S as [|? ? S' F]; subst.
    rewrite Forall_forall in F.
    assert (Hx : key_le x k) by (apply F, in_elt).
    unfold key_le in Hx. rewrite Hx. cbn [bind]. now rewrite (IH S').
Qed.

Lemma sorted_without k s2 : forall s1,
  StronglySorted key_le (s1 ++ k :: s2) -> StronglySorted key_le (s1 ++ s2).
Proof.
  induction s1 as [|x s1 IH]; intros S; simpl in *.
  - now inversion S.
  - inversion S as [|? ? S' F]; subst. constructor; [now apply IH|].
    rewrite Forall_forall in *. intros y Hy. apply F.
    apply in_app_iff in Hy as [Hy|Hy]; apply in_app_iff; [now left|].
    right. now right.
Qed.

(** [sorted] returns the sorted sequence of its keys, and nothing else. *)
Lemma sorted_sequence_iff ks : forall s,
  sorted ks = Ok s <-> sorted_sequence ks s.
Proof.
  intros s. split.
  - intros H. split; [now apply sorted_perm|now apply (sorted_sorted ks)].
  - revert s. induction ks as [|k ks IH]; intros s [P S].
    + apply Permutation_nil in P. now subst.
    + assert (Hin : In k s) by (apply (Permutation_in _ P); now left).
      apply in_split in Hin as (s1 & s2 & ->).
      apply Permutation_cons_app_inv in P.
      simpl. rewrite (IH (s1 ++ s2)); [|split; [assumption|]].
      * cbn [bind]. now apply insert_key_middle.
      * now apply (sorted_without k).
Qed.

Lemma lookup_in d k v : PyDict.lookup d k = Some v -> exists k', In (k', v) d.
Proof.
  induction d as [|[a w] d IH]; simpl; [discriminate|].
  destruct (key_eqb a k).
  - intros [= ->]. exists a. now left.
  - intros H. destruct (IH H) as (k' & Hin). exists k'. now right.
Qed.

Section SpecEqual.

Variable f : Filter.t.

Lemma each_item_spec ls : forall rs,
  Forall (fun l => forall r, Filter.are_equal f l r = Ok true <-> spec_equal f l r) ls ->
  List.length ls = List.length rs ->
  (each_item f ls rs = Ok true <-> Forall2 (spec_equal f) ls rs).
Proof.
  induction ls as [|l ls IH]; intros [|r rs] F L; simpl in L; try discriminate.
  - split; [constructor|reflexivity].
  - inversion F as [|? ? Hl F']; subst. injection L as L.
    cbn [each_item]. split.
    + intros H. destruct (Filter.are_equal f l r) as [[|]|] eqn:E;
        cbn [bind] in H; try discriminate.
      constructor; [now apply Hl|]. now apply (IH rs F' L).
    + intros H. inversion H as [|? ? ? ? H1 H2]; subst.
      apply Hl in H1. rewrite H1. cbn [bind]. now apply (IH rs F' L).
Qed.

Lemma are_equal_direct a b :
  is_list a && is_list b = false ->
  is_dict a && is_dict b = false ->
  Filter.are_equal f a b = Ok (py_eq a b).
Proof. destruct a, b; simpl; try discriminate; reflexivity. Qed.

Lemma equal_at_spec dl dr ks :
  Forall (fun kv => forall r, Filter.are_equal f (snd kv) r = Ok true <->
                              spec_equal f (snd kv) r) dl ->
  (Forall (equal_at f dl dr) ks <->
   Forall (fun k => exists l r,
             PyDict.lookup dl k = Some l /\ PyDict.lookup dr k = Some r /\
             spec_equal f l r) ks).
Proof.
  intros IH. rewrite Forall_forall in IH.
  split; apply Forall_impl; intros k (l & r & Hl & Hr & E);
    exists l, r; repeat split; try assumption;
    destruct (lookup_in _ _ _ Hl) as (k' & Hin);
    apply (IH (k', l) Hin); assumption.
Qed.

Lemma are_equal_spec : forall left right,
  Filter.are_equal f left right = Ok true <-> spec_equal f left right.
Proof.
  induction left as [s|ls IH|dl IH] using value_ind; intros right.
  - split.
    + intros H. rewrite are_equal_direct in H by reflexivity.
      injection H as H. now apply equal_direct.
    + intros H. inversion H; subst. now rewrite are_equal_direct, H2.
  - destruct right as [s|rs|dr].
    + split.
      * intros H. rewrite are_equal_direct in H by reflexivity.
        injection H as H. now apply equal_direct.
      * intros H. inversion H; subst. now rewrite are_equal_direct, H2.
    + rewrite are_equal_list. split.
      * intros H. destruct (List.length ls =? List.length rs)%nat eqn:L;
          [|discriminate].
        apply Nat.eqb_eq in L. cbn [negb] in H.
        constructor. now apply (each_item_spec ls rs IH L).
      * intros H. inversion H as [? ? H2| |]; subst; [|discriminate].
        pose proof (Forall2_length H2) as L.
        rewrite L, Nat.eqb_refl. cbn [negb].
        now apply (each_item_spec ls rs IH L).
    + split.
      * intros H. rewrite are_equal_direct in H by reflexivity.
        injection H as H. now apply equal_direct.
      * intros H. inversion H; subst. now rewrite are_equal_direct, H2.
  - destruct right as [s|rs|dr].
    + split.
      * intros H. rewrite are_equal_direct in H by reflexivity.
        injection H as H. now apply equal_direct.
      * intros H. inversion H; subst. now rewrite are_equal_direct, H2.
    + split.
      * intros H. rewrite are_equal_direct in H by reflexivity.
        injection H as H. now apply equal_direct.
      * intros H. inversion H; subst. now rewrite are_equal_direct, H2.
    + rewrite are_equal_dict. split.
      * intros H.
        destruct (sorted (PyDict.keys dl)) as [lk|] eqn:El; [|discriminate].
        destruct (sorted (PyDict.keys dr)) as [rk|] eqn:Er; [|discriminate].
        cbn [bind] in H. rewrite !select_retained in H.
        destruct (keys_eqb (filter (retained f) lk) (filter (retained f) rk))
          eqn:E; [|discriminate].
        cbn [negb] in H. apply keys_eqb_eq in E.
        apply (equal_mappings f dl dr lk rk);
          [now apply sorted_sequence_iff|now apply sorted_sequence_iff|exact E|].
        apply (equal_at_spec dl dr _ IH). now apply each_key_true.
      * intros H. inversion H as [|? ? lk rk Sl Sr E F|]; subst; [|discriminate].
        apply sorted_sequence_iff in Sl, Sr. rewrite Sl, Sr. cbn [bind].
        rewrite !select_retained, <- E.
        replace (keys_eqb (filter (retained f) lk) (filter (retained f) lk))
          with true by (symmetry; now apply keys_eqb_eq).
        cbn [negb]. apply each_key_true. now apply (equal_at_spec dl dr _ IH).
Qed.

End SpecEqual.

(** C7: two dicts are equal for a filter exactly when their key sets, as
    sorted sequences filtered to the retained keys (blacklist first, then
    whitelist), are identical and the values under every retained key are
    equal for the filter, in the recursive sense of the specification; the
    comparison decides that equality on all values.  The order in which the
    keys were inserted does not count, a differing retained value does.
    With [blacklist=["id"]], [{"id": 1, "x": 2}] equals
    [{"id": 9, "x": 2}]; without a filter the views differ. *)
Theorem filter_equality_on_mappings :
  (forall f left_value right_value,
     Filter.are_equal f (VDict left_value) (VDict right_value) = Ok true <->
     exists left_keys right_keys,
       sorted_sequence (PyDict.keys left_value) left_keys /\
       sorted_sequence (PyDict.keys right_value) right_keys /\
       filter (retained f) left_keys = filter (retained f) right_keys /\
       Forall (fun k => exists l r,
                 PyDict.lookup left_value k = Some l /\
                 PyDict.lookup right_value k = Some r /\
                 spec_equal f l r)
              (filter (retained f) left_keys)) /\
  (forall f left right,
     Filter.are_equal f left right = Ok true <-> spec_equal f left right) /\
  (let f := Filter.__init__ (Filter.KeyList [KStr "id"]) Filter.NoKeys in
   let a := VDict [(KStr "id", VInt 1); (KStr "x", VInt 2)] in
   let b := VDict [(KStr "id", VInt 9); (KStr "x", VInt 2)] in
   Filter.are_equal f a b = Ok true /\
   Filter.are_equal f
     (VDict [(KStr "x", VInt 2); (KStr "w", VInt 0); (KStr "id", VInt 1)])
     (VDict [(KStr "id", VInt 9); (KStr "w", VInt 0); (KStr "x", VInt 2)]) =
     Ok true /\
   Filter.are_equal f a (VDict [(KStr "id", VInt 1); (KStr "x", VInt 3)]) =
     Ok false /\
   Traverser.__eq__ {| Traverser.internals_value := a; Traverser.internals_filter := Some f |} b
     = Ok true /\
   Traverser.__eq__ {| Traverser.internals_value := a; Traverser.internals_filter := None |} b
     = Ok false).
Proof.
  split; [|split; [|repeat split]].
  - intros f left_value right_value. rewrite are_equal_spec. split.
    + intros H. inversion H as [|? ? lk rk Sl Sr E F|]; subst; [|discriminate].
      now exists lk, rk.
    + intros (lk & rk & Sl & Sr & E & F).
      now apply (equal_mappings f left_value right_value lk rk).
  - intros f left right. apply are_equal_spec.
Qed.

(** * What a write leaves alone, and what a path cannot name *)

(** [find_get] reads the store below its node only. *)
Lemma find_get_local ks : forall root root' q,
  deref root q = deref root' q ->
  find_get root q ks = find_get root' q ks.
Proof.
  induction ks as [|k ks IH]; intros root root' q H; [reflexivity|].
  cbn [find_get]. unfold get, raw. rewrite <- H.
  destruct (deref root q) as [c|] eqn:D; [|reflexivity]. cbn [bind].
  destruct c as [s|l|d]; try reflexivity. cbn [is_list].
  destruct ks as [|k2 ks]; [reflexivity|].
  unfold PyDict.get.
  destruct (PyDict.lookup d (KStr k)) as [c|] eqn:L; [|reflexivity].
  destruct c as [s|l|d']; cbn [wrap_value]; try reflexivity;
    apply IH; rewrite !deref_app, <- H, D; reflexivity.
Qed.

Lemma assign_sets_head ks : forall d v d',
  assign d ks v = Ok d' ->
  exists k x, hd_error ks = Some k /\ d' = PyDict.set d (KStr k) x.
Proof.
  intros d v d' H. destruct ks as [|k ks]; [discriminate|].
  destruct ks as [|k2 ks].
  - cbn in H. injection H as <-. exists k, v. split; reflexivity.
  - rewrite assign_cons in H.
    destruct (coerce_dict _) as [c|]; [|discriminate]. cbn [bind] in H.
    destruct (assign c (k2 :: ks) v) as [c'|]; [|discriminate].
    cbn [bind] in H. injection H as <-.
    exists k, (VDict c'). split; reflexivity.
Qed.



Section LeadingDot.

Open Scope string_scope.

Lemma cons_head_tl c segs : segs <> [] -> tl (cons_head c segs) = tl segs.
Proof. destruct segs; [congruence|reflexivity]. Qed.

Lemma split_spec_nonempty path : split_spec path <> [].
Proof.
  destruct path as [|c s]; [discriminate|]. simpl.
  destruct (Ascii.eqb c ".").
  - destruct s as [|d s]; [discriminate|].
    destruct (Ascii.eqb d "."); [|discriminate].
    destruct (split_spec s); discriminate.
  - destruct (split_spec s); discriminate.
Qed.

Lemma split_spec_head_dotless s :
  PyStr.startswith "." s = false ->
  PyStr.startswith "." (hd EmptyString (split_spec s)) = false.
Proof.
  intros H. destruct s as [|c s]; [reflexivity|].
  cbn [PyStr.startswith] in H. rewrite andb_true_r, Ascii.eqb_sym in H.
  rewrite (split_spec_char _ _ H).
  pose proof (split_spec_nonempty s) as N.
  destruct (split_spec s); [congruence|].
  cbn [cons_head hd PyStr.startswith]. now rewrite andb_true_r, Ascii.eqb_sym.
Qed.

Lemma split_spec_later_dotless_len n : forall path,
  (String.length path <= n)%nat ->
  later_segments_dotless (split_spec path).
Proof.
  unfold later_segments_dotless.
  induction n as [|n IH]; intros path Hn.
  - destruct path; [constructor|simpl in Hn; lia].
  - destruct path as [|c s]; [constructor|]. simpl in Hn.
    destruct (Ascii.eqb c ".") eqn:Ec.
    + apply Ascii.eqb_eq in Ec. subst c.
      destruct (PyStr.startswith "." s) eqn:Es.
      * destruct s as [|d s']; [discriminate|].
        cbn [PyStr.startswith] in Es. rewrite andb_true_r in Es.
        apply Ascii.eqb_eq in Es. subst d.
        rewrite split_spec_pair, cons_head_tl by apply split_spec_nonempty.
        apply IH. simpl in Hn. lia.
      * rewrite (split_spec_dot _ Es). cbn [tl].
        pose proof (split_spec_nonempty s) as N.
        pose proof (split_spec_head_dotless s Es) as Hh.
        pose proof (IH s ltac:(lia)) as Ht.
        destruct (split_spec s) as [|seg segs]; [congruence|].
        constructor; assumption.
    + rewrite (split_spec_char _ _ Ec), cons_head_tl
        by apply split_spec_nonempty.
      apply IH. lia.
Qed.

(** Below the first segment a key that starts with a dot has no path. *)
Theorem split_escaped_later_dotless (path : string) :
  PyStr.contains placeholder path = false ->
  later_segments_dotless (split_escaped path).
Proof.
  intros H. rewrite (split_escaped_split_spec path H).
  apply (split_spec_later_dotless_len (String.length path)). lia.
Qed.

End LeadingDot.

Lemma split_escaped_later_dotless_witness :
  later_segments_dotless (split_escaped "a...b") /\
  split_escaped "a...b" = ["a."; "b"].
Proof.
  split; [|reflexivity].
  exact (split_escaped_later_dotless "a...b" eq_refl).
Defined.

(** * Views as sequences *)

Lemma position_some n i :
  - Z.of_nat n <= i < Z.of_nat n ->
  exists j, PyList.position n i = Some j /\ (j < n)%nat.
Proof.
  intros H. unfold PyList.position.
  destruct (i <? 0) eqn:E.
  - apply Z.ltb_lt in E.
    replace ((0 <=? i + Z.of_nat n) && (i + Z.of_nat n <? Z.of_nat n)) with true
      by (symmetry; apply andb_true_intro; split;
          [apply Z.leb_le|apply Z.ltb_lt]; lia).
    eexists. split; [reflexivity|lia].
  - apply Z.ltb_ge in E.
    replace ((0 <=? i) && (i <? Z.of_nat n)) with true
      by (symmetry; apply andb_true_intro; split;
          [apply Z.leb_le|apply Z.ltb_lt]; lia).
    eexists. split; [reflexivity|lia].
Qed.

Lemma position_none n i :
  ~ (- Z.of_nat n <= i < Z.of_nat n) -> PyList.position n i = None.
Proof.
  intros H. unfold PyList.position.
  destruct (i <? 0) eqn:E.
  - apply Z.ltb_lt in E.
    destruct (0 <=? i + Z.of_nat n) eqn:E1; [|reflexivity].
    apply Z.leb_le in E1. lia.
  - apply Z.ltb_ge in E.
    destruct (i <? Z.of_nat n) eqn:E1; [|now rewrite andb_false_r].
    apply Z.ltb_lt in E1. lia.
Qed.

Lemma len_ensure_list root p v :
  deref root p = Some v ->
  traversable v = true ->
  __len__ root p = Ok (Z.of_nat (List.length (ensure_list v))).
Proof.
  intros H T. unfold __len__. rewrite (raw_deref _ _ _ H). cbn [bind].
  destruct v as [s|l|d]; try discriminate; reflexivity.
Qed.

(** An integer index is accepted exactly within the length the view
    reports, counted from either end; a view over a dict is a sequence of
    one item, itself. *)
Theorem getitem_within_len (root : value) (p : loc) (v : value) (i : Z) :
  deref root p = Some v ->
  traversable v = true ->
  exists n,
    __len__ root p = Ok n /\
    (if (- n <=? i) && (i <? n)
     then exists x, __getitem__ root p (IInt i) = Ok x
     else __getitem__ root p (IInt i) = Raise IndexError) /\
    (is_list v = false -> n = 1 /\ __getitem__ root p (IInt 0) = Ok (View v)).
Proof.
  intros H T. exists (Z.of_nat (List.length (ensure_list v))).
  split; [now apply len_ensure_list|]. split.
  - cbn [__getitem__]. rewrite (raw_deref _ _ _ H). cbn [bind].
    unfold PyList.__getitem__.
    destruct ((- Z.of_nat (List.length (ensure_list v)) <=? i) &&
              (i <? Z.of_nat (List.length (ensure_list v)))) eqn:E.
    + apply andb_prop in E as [E1 E2].
      apply Z.leb_le in E1. apply Z.ltb_lt in E2.
      destruct (position_some (List.length (ensure_list v)) i)
        as (j & -> & Hj); [lia|].
      destruct (nth_error (ensure_list v) j) eqn:N; [eauto|].
      apply nth_error_None in N. lia.
    + rewrite position_none; [reflexivity|].
      intros [H1 H2]. apply Z.leb_le in H1. apply Z.ltb_lt in H2.
      now rewrite H1, H2 in E.
  - intros L. destruct v as [s|l|d]; try discriminate. split; [reflexivity|].
    cbn [__getitem__]. now rewrite (raw_deref _ _ _ H).
Qed.

Lemma getitem_within_len_witness :
  exists x,
    __getitem__ (VDict [(KStr "a", VList [VInt 1; VInt 2])]) [KStr "a"]
                (IInt (-1)) = Ok x.
Proof.
  destruct (getitem_within_len (VDict [(KStr "a", VList [VInt 1; VInt 2])])
              [KStr "a"] (VList [VInt 1; VInt 2]) (-1) eq_refl eq_refl)
    as (n & Hn & Hi & _).
  cbn in Hn. injection Hn as <-. exact Hi.
Defined.

Lemma clamp_le n i : (PyList.clamp n i <= n)%nat.
Proof.
  unfold PyList.clamp. destruct (i <? 0) eqn:E; [apply Z.ltb_lt in E|]; lia.
Qed.

Lemma slice_all {A} (l : list A) : PyList.slice l 0 (Z.of_nat (List.length l)) = l.
Proof.
  unfold PyList.slice, PyList.clamp. cbn [Z.ltb Z.compare].
  replace (Z.to_nat (Z.min 0 (Z.of_nat (List.length l)))) with 0%nat by lia.
  destruct (Z.of_nat (List.length l) <? 0) eqn:E; [apply Z.ltb_lt in E; lia|].
  rewrite Z.min_id, Nat2Z.id, Nat.sub_0_r. cbn [skipn]. apply firstn_all.
Qed.

(** A slice never raises, whatever its bounds: it is a new list no
    longer than the sequence, the whole sequence when no bound is given, and its
    step is ignored. *)
Theorem getitem_slice (root : value) (p : loc) (v : value)
    (start stop step : option Z) :
  deref root p = Some v ->
  exists l,
    __getitem__ root p (ISlice start stop step) = Ok (View (VList l)) /\
    (List.length l <= List.length (ensure_list v))%nat /\
    __getitem__ root p (ISlice start stop None) = Ok (View (VList l)) /\
    (start = None -> stop = None -> l = ensure_list v).
Proof.
  intros H. cbn [__getitem__]. rewrite (raw_deref _ _ _ H). cbn [bind wrap_raw].
  eexists. split; [reflexivity|]. split; [|split; [reflexivity|]].
  - unfold PyList.slice. rewrite length_firstn, length_skipn.
    pose proof (clamp_le (List.length (ensure_list v))
                  (match start with Some i => i | None => 0 end)).
    pose proof (clamp_le (List.length (ensure_list v))
                  (match stop with
                   | Some i => i
                   | None => Z.of_nat (List.length (ensure_list v))
                   end)).
    lia.
  - intros -> ->. apply slice_all.
Qed.

Lemma getitem_slice_witness :
  exists l,
    __getitem__ (VList [VInt 1; VInt 2; VInt 3]) []
                (ISlice (Some 1) (Some 9) (Some 2)) = Ok (View (VList l)) /\
    (List.length l <= 3)%nat.
Proof.
  destruct (getitem_slice (VList [VInt 1; VInt 2; VInt 3]) [] _
              (Some 1) (Some 9) (Some 2) eq_refl) as (l & H & Hl & _).
  exists l. split; [exact H|exact Hl].
Defined.

(** [extend] leaves the view wrapping what [+] returns, [append] is
    [extend] with a list of one item, and lengths add up. *)
Theorem add_extend_append (root : value) (x : value) :
  exists r n,
    __add__ root [] x = Ok r /\
    extend root [] x = Ok r /\
    append root [] x = extend root [] (VList [x]) /\
    __len__ root [] = Ok n /\
    __len__ r [] = Ok (n + Z.of_nat (List.length (ensure_list x))).
Proof.
  exists (VList (ensure_list root ++ ensure_list x)),
         (Z.of_nat (List.length (ensure_list root))).
  assert (L : __len__ (VList (ensure_list root ++ ensure_list x)) [] =
              Ok (Z.of_nat (List.length (ensure_list root)) +
                  Z.of_nat (List.length (ensure_list x)))).
  { cbn. now rewrite length_app, Nat2Z.inj_add. }
  destruct root as [s|l|d]; repeat split; try exact L; reflexivity.
Qed.

(** Containment in a view over a list compares every item without the
    filter of the view; a view that does not wrap a list contains what it
    equals. *)
Theorem contains_ignores_filter (l : list value) (f : option Filter.t)
    (x : value) :
  __contains__ {| internals_value := VList l; internals_filter := f |} x =
    Ok (existsb (fun e => py_eq e x) l) /\
  forall d,
    __contains__ {| internals_value := VDict d; internals_filter := f |} x =
    __eq__ {| internals_value := VDict d; internals_filter := f |} x.
Proof.
  split.
  - cbn [__contains__ internals_value].
    induction l as [|e l IH]; [reflexivity|].
    cbn [existsb].
    replace (match e with
             | VScalar _ => Ok (py_eq e x)
             | _ => __eq__ {| internals_value := e; internals_filter := None |} x
             end) with (Ok (A:=bool) (py_eq e x)) by now destruct e.
    cbn [bind]. destruct (py_eq e x); [reflexivity|exact IH].
  - intros d. cbn [__contains__ internals_value].
    destruct (__eq__ _ x) as [[|]|e]; reflexivity.
Qed.

Lemma position_nat n i : (i < n)%nat -> PyList.position n (Z.of_nat i) = Some i.
Proof.
  intros H. unfold PyList.position.
  destruct (Z.of_nat i <? 0) eqn:E; [apply Z.ltb_lt in E; lia|].
  replace ((0 <=? Z.of_nat i) && (Z.of_nat i <? Z.of_nat n)) with true
    by (symmetry; apply andb_true_intro; split;
        [apply Z.leb_le|apply Z.ltb_lt]; lia).
  now rewrite Nat2Z.id.
Qed.

(** Iteration yields as many items as the view reports, and the item at
    each position wraps the value the integer index gives.  The items of a
    list carry no filter.  A view that does not wrap a list yields itself,
    filter included, while index 0 gives a view over the same value
    without the filter: the two can answer [==] differently. *)
Theorem iter_items_and_indexed_items (self : view) :
  traversable (internals_value self) = true ->
  let value := internals_value self in
  __len__ value [] = Ok (Z.of_nat (List.length (__iter__ self))) /\
  (forall i x,
     nth_error (__iter__ self) i = Some x ->
     match x with
     | IterScalar s =>
         __getitem__ value [] (IInt (Z.of_nat i)) = Ok (Scalar s)
     | IterView t =>
         __getitem__ value [] (IInt (Z.of_nat i)) =
           Ok (View (internals_value t)) /\
         internals_filter t =
           (if is_list value then None else internals_filter self)
     end) /\
  (is_list value = false -> __iter__ self = [IterView self]) /\
  (let f := Filter.__init__ (Filter.KeyList [KStr "id"]) Filter.NoKeys in
   let d := VDict [(KStr "id", VInt 1)] in
   let other := VDict [(KStr "id", VInt 2)] in
   let t := {| internals_value := d; internals_filter := Some f |} in
   __iter__ t = [IterView t] /\
   __eq__ t other = Ok true /\
   __getitem__ d [] (IInt 0) = Ok (View d) /\
   __eq__ {| internals_value := d; internals_filter := None |} other =
     Ok false).
Proof.
  destruct self as [v f]. cbn [internals_value internals_filter].
  intros T. cbv zeta. unfold __iter__, __len__.
  cbn [internals_value raw deref bind].
  destruct v as [s|l|d]; try discriminate.
  - split; [now rewrite length_map|]. split; [|split; [discriminate|]].
    + intros i x N. cbn [__getitem__ raw deref bind ensure_list].
      rewrite nth_error_map in N.
      destruct (nth_error l i) as [e|] eqn:E; [|discriminate].
      injection N as <-. unfold PyList.__getitem__.
      rewrite position_nat by (apply nth_error_Some; congruence).
      rewrite E. now destruct e.
    + repeat split.
  - split; [reflexivity|]. split; [|split; [reflexivity|]].
    + intros i x N. destruct i as [|i]; [|destruct i; discriminate].
      injection N as <-. now split.
    + repeat split.
Qed.

Lemma iter_items_and_indexed_items_witness :
  __len__ (VList [VInt 4; VDict []]) [] = Ok 2 /\
  __getitem__ (VList [VInt 4; VDict []]) [] (IInt 1) = Ok (View (VDict [])).
Proof.
  pose proof (iter_items_and_indexed_items
                {| internals_value := VList [VInt 4; VDict []];
                   internals_filter := None |} eq_refl) as H.
  cbv zeta in H. destruct H as (H1 & H2 & _).
  split; [exact H1|].
  exact (proj1 (H2 1%nat (IterView {| internals_value := VDict [];
                                      internals_filter := None |}) eq_refl)).
Defined.

(** * Unwrapping *)

Lemma unwrap_of_value : forall v,
  recursively_unwrap_value (of_value v) = of_value v.
Proof.
  induction v as [s|l IH|d IH] using value_ind; cbn.
  - reflexivity.
  - f_equal. rewrite map_map. apply map_ext_Forall. exact IH.
  - f_equal. rewrite map_map. apply map_ext_Forall.
    eapply Forall_impl; [|exact IH]. intros [k x] H. cbn in *. now rewrite H.
Qed.

Lemma unwrap_list_raw l :
  Forall (fun o => constructed o = true ->
            exists v, recursively_unwrap_value o = of_value v) l ->
  forallb constructed l = true ->
  exists vs, map recursively_unwrap_value l = map of_value vs.
Proof.
  induction 1 as [|o l Ho _ IH]; intros C; [now exists []|].
  simpl in C. apply andb_prop in C as [C1 C2].
  destruct (Ho C1) as (v & Hv). destruct (IH C2) as (vs & Hvs).
  exists (v :: vs). simpl. now rewrite Hv, Hvs.
Qed.

Lemma unwrap_dict_raw (d : list (key * object)) :
  Forall (fun kv => constructed (snd kv) = true ->
            exists v, recursively_unwrap_value (snd kv) = of_value v) d ->
  forallb (fun '(k, v) => constructed v) d = true ->
  exists vd,
    map (fun '(k, v) => (k, recursively_unwrap_value v)) d =
    map (fun '(k, x) => (k, of_value x)) vd.
Proof.
  induction 1 as [|[k o] d Ho _ IH]; intros C; [now exists []|].
  simpl in C. apply andb_prop in C as [C1 C2].
  destruct (Ho C1) as (v & Hv). destruct (IH C2) as (vd & Hvd).
  exists ((k, v) :: vd). simpl in *. now rewrite Hv, Hvd.
Qed.



(** * Attribute names *)

Section Identifiers.

Open Scope string_scope.

Lemma is_word_not_dot c : is_word c = true -> Ascii.eqb "." c = false.
Proof.
  intros H. destruct (Ascii.eqb_spec "." c) as [<-|]; [discriminate|reflexivity].
Qed.

Lemma word_tail_dotless r : word_tail r = true -> PyStr.contains "." r = false.
Proof.
  induction r as [|c r IH]; [reflexivity|]. cbn [word_tail PyStr.contains].
  destruct (is_word c) eqn:W.
  - intros H. rewrite (IH H). cbn [PyStr.startswith].
    now rewrite (is_word_not_dot c W).
  - intros H. apply andb_prop in H as [H1 H2].
    apply Ascii.eqb_eq in H1. apply String.eqb_eq in H2. now subst.
Qed.

Lemma identifier_dotless s :
  is_identifier (KStr s) = true -> PyStr.contains "." s = false.
Proof.
  destruct s as [|c r]; [discriminate|]. cbn [is_identifier].
  intros H. apply andb_prop in H as [H1 H2].
  cbn [PyStr.contains PyStr.startswith].
  rewrite (word_tail_dotless r H2).
  assert (W : is_word c = true).
  { unfold is_word. apply orb_prop in H1 as [->| ->]; [reflexivity|].
    apply orb_true_r. }
  now rewrite (is_word_not_dot c W).
Qed.

Lemma split_spec_dotless s :
  PyStr.contains "." s = false -> split_spec s = [s].
Proof.
  induction s as [|c r IH]; [reflexivity|].
  cbn [PyStr.contains PyStr.startswith]. intros H.
  apply orb_false_iff in H as [H1 H2]. rewrite andb_true_r in H1.
  rewrite Ascii.eqb_sym in H1.
  rewrite (split_spec_char _ _ H1), (IH H2). reflexivity.
Qed.

Lemma identifier_one_segment s :
  is_identifier (KStr s) = true ->
  PyStr.contains placeholder s = false ->
  split_escaped s = [s].
Proof.
  intros I H. rewrite (split_escaped_split_spec s H).
  apply split_spec_dotless. now apply identifier_dotless.
Qed.

End Identifiers.

(** A segment that is not an integer text and holds neither a dot nor the
    placeholder is a plain dict key. *)
Lemma dotless_plain (k : string) :
  PyStr.int k = None ->
  PyStr.contains "." k = false ->
  PyStr.contains placeholder k = false ->
  plain k.
Proof.
  intros I D H. split; [exact I|].
  rewrite (split_escaped_split_spec k H). now apply split_spec_dotless.
Qed.

(** The names [__dir__] appends to [dir(Traverser)] for a view over a dict
    are the keys of the dict that are identifiers, in the order of the
    dict.  Each is a string key; the [__getattr__] method called with it
    returns its item unless the name holds the internals marker, and the
    path read of it returns its item unless the name holds the
    placeholder. *)
Theorem dir_key_is_readable (class_dir : list key) (root : value) (p : loc)
    (d : dict) :
  deref root p = Some (VDict d) ->
  exists added,
    __dir__ class_dir root p = Ok (class_dir ++ added) /\
    added = filter is_identifier (PyDict.keys d) /\
    forall k,
      In k added ->
      exists s x,
        k = KStr s /\
        PyDict.lookup d k = Some x /\
        (PyStr.contains internals_marker s = false ->
         __getattr__ root p s = Ok (Attr (wrap_value (p ++ [k]) x))) /\
        (PyStr.contains placeholder s = false ->
         _find root p k = Ok (wrap_value (p ++ [k]) x)).
Proof.
  intros H. unfold __dir__. rewrite (raw_deref _ _ _ H). cbn [bind].
  eexists. split; [reflexivity|]. split; [reflexivity|]. intros k Hin.
  apply filter_In in Hin as [Hk I].
  destruct k as [s|z]; [|discriminate].
  destruct (lookup_in_keys _ _ Hk) as (k' & x & L & _).
  exists s, x. repeat split; try assumption.
  - intros M. unfold __getattr__. rewrite M.
    now rewrite (get_child _ _ _ _ _ H L).
  - intros Hp. unfold _find. rewrite (identifier_one_segment s I Hp).
    rewrite (find_get_dict _ _ _ _ _ H). unfold PyDict.get. now rewrite L.
Qed.

Lemma dir_key_is_readable_witness :
  let root := VDict [(KStr "a_1", VInt 5); (KStr "b.c", VInt 6);
                     (KInt 3, VInt 7)] in
  __dir__ [KStr "get"] root [] = Ok [KStr "get"; KStr "a_1"] /\
  __getattr__ root [] "a_1" = Ok (Attr (Plain (SInt 5))) /\
  _find root [] (KStr "a_1") = Ok (Plain (SInt 5)).
Proof.
  destruct (dir_key_is_readable [KStr "get"]
              (VDict [(KStr "a_1", VInt 5); (KStr "b.c", VInt 6);
                      (KInt 3, VInt 7)]) [] _ eq_refl)
    as (added & H1 & -> & H3).
  destruct (H3 (KStr "a_1") (or_introl eq_refl))
    as (s & x & E & L & G & F).
  injection E as <-. injection L as <-.
  split; [exact H1|]. split; [exact (G eq_refl)|exact (F eq_refl)].
Defined.

(** The marker and the placeholder are identifiers themselves: such a key
    is listed, but the attribute gives the internals and the path a dot. *)
Lemma dir_key_exceptions :
  is_identifier (KStr internals_marker) = true /\
  is_identifier (KStr placeholder) = true /\
  __getattr__ (VDict [(KStr internals_marker, VInt 1)]) [] internals_marker =
    Ok Internals /\
  _find (VDict [(KStr placeholder, VInt 1)]) [] (KStr placeholder) =
    Ok (Plain SNone).
Proof. repeat split. Qed.
